(** * Polygon pipeline: reduction of one polygon and aggregation of outcomes

    A shallow embedding of [processPolygon] and [collectResults] of
    [fixed_script_with_comments.go], with the helpers [MinInt], [MaxInt]
    and [MaxFloat32] they call.

    - Go's [int] is modelled as [Z]; the only integer operations of the two
      functions on coordinates are comparisons, so no wrap-around arises.
      The constants [math.MaxInt] and [math.MinInt] are those of a 64-bit
      platform, and [int_range] says that a [Z] is a value of that type.
    - Go's [float32] is modelled as the IEEE-754 binary32 instance of the
      Standard Library's [spec_float] (24 bits of precision, [emax] = 128),
      addition rounding to nearest even.
    - A [context.Context] is modelled by what [ctx.Err()] answers at the
      moment it is asked: inside [processPolygon], as a function of the loop
      index; at the end of [collectResults], as one observation.
    - The [results] channel is modelled by the finite list of values sent on
      it before it is closed; what [collectResults] does with [resCh] and
      [log] is recorded as a list of events. *)

From Stdlib Require Import String ZArith List Bool Lia Permutation DecimalString.
From Stdlib Require Import Floats.SpecFloat.
Import ListNotations.
Local Open Scope Z_scope.

(** ** Integers *)

Module math.
Definition MaxInt : Z := 2 ^ 63 - 1.
Definition MinInt : Z := - 2 ^ 63.
End math.

Definition int_range (z : Z) : Prop := math.MinInt <= z <= math.MaxInt.

Definition MinInt (a b : Z) : Z := if a <? b then a else b.

Definition MaxInt (a b : Z) : Z := if a >? b then a else b.

(** ** float32 *)

Module F32.
Definition prec : Z := 24.
Definition emax : Z := 128.

Definition float32 : Type := spec_float.

Definition zero : float32 := S754_zero false.

(** Conversion of an integer constant, as in [float32(0)] or the untyped
    constant [100] compared with a [float32]. *)
Definition of_Z (z : Z) : float32 := binary_normalize prec emax z 0 false.

Definition add (a b : float32) : float32 := SFadd prec emax a b.

(** [a > b] and [a >= b]; false when either side is a NaN. *)
Definition gt (a b : float32) : bool :=
  match SFcompare a b with
  | Some Gt => true
  | _ => false
  end.

Definition ge (a b : float32) : bool :=
  match SFcompare a b with
  | Some Gt | Some Eq => true
  | _ => false
  end.

End F32.

Definition float32 : Type := F32.float32.

Definition MaxFloat32 (a b : float32) : float32 := if F32.gt a b then a else b.

(** ** Data types *)

Record Point : Type := mkPoint { X : Z; Y : Z }.

(** [WeightedPoint] embeds [Point]; [pX] and [pY] are the promoted fields
    [p.X] and [p.Y]. *)
Record WeightedPoint : Type := mkWeightedPoint { point : Point; Weight : float32 }.

Definition pX (p : WeightedPoint) : Z := X (point p).
Definition pY (p : WeightedPoint) : Z := Y (point p).

Record Polygon : Type := mkPolygon { Points : list WeightedPoint }.

Record Bbox : Type := mkBbox { X1 : Z; Y1 : Z; X2 : Z; Y2 : Z }.

(** The field [Bbox] of [Result] is named [ResBbox] here, the type keeping
    the name. [HeavyPolygons] holds the polygons the pointers refer to. *)
Record Result : Type := mkResult {
  ResBbox : Bbox;
  MaxWeight : float32;
  HeavyPolygons : list Polygon
}.

(** Values of Go's [error] interface that reach these functions: the error
    of a context ([context.Canceled], [context.DeadlineExceeded]) and the
    errors [fetchAndProcessPolygon] builds with [fmt.Errorf]. *)
Inductive ctxError : Type := Canceled | DeadlineExceeded.

Inductive error : Type :=
| ErrContext (e : ctxError)
| ErrFetch (msg : string).

(** [polygon] is a pointer and [err] an interface value: [None] is [nil]. *)
Record PolygonResult : Type := mkPolygonResult {
  localBbox : Bbox;
  weight : float32;
  isHeavy : bool;
  polygon : option Polygon;
  err : option error
}.

(** The zero value [Bbox{}]. *)
Definition zeroBbox : Bbox := mkBbox 0 0 0 0.

(** [PolygonResult{err: e}]: every other field has its zero value. *)
Definition errResult (e : error) : PolygonResult :=
  mkPolygonResult zeroBbox F32.zero false None (Some e).

(** ** processPolygon *)

(** What [ctx.Err()] returns when asked at loop index [i]. *)
Definition Context : Type := nat -> option error.

Definition background : Context := fun _ => None.

(** The four assignments to [bbox] in the loop body. *)
Definition growBbox (bbox : Bbox) (p : WeightedPoint) : Bbox :=
  mkBbox (MinInt (X1 bbox) (pX p)) (MinInt (Y1 bbox) (pY p))
         (MaxInt (X2 bbox) (pX p)) (MaxInt (Y2 bbox) (pY p)).

(** [i%1000 == 0 && ctx.Err() != nil]: the context is asked only at the
    indices that are multiples of 1000. A context that has fired stays
    fired with the same error, so the second call of [ctx.Err()], in the
    [return], gives the error the condition saw. *)
Definition pollCtx (ctx : Context) (i : nat) : option error :=
  if (i mod 1000 =? 0)%nat then ctx i else None.

(** The loop [for i, p := range poly.Points], from index [i] on: [inl e] is
    the early [return PolygonResult{err: ctx.Err()}], [inr] the values of
    [bbox] and [sumWeight] when the loop ends. *)
Fixpoint rangePoints (ctx : Context) (i : nat) (ps : list WeightedPoint)
         (bbox : Bbox) (sumWeight : float32) : error + (Bbox * float32) :=
  match ps with
  | [] => inr (bbox, sumWeight)
  | p :: ps' =>
      match pollCtx ctx i with
      | Some e => inl e
      | None =>
          rangePoints ctx (S i) ps' (growBbox bbox p) (F32.add sumWeight (Weight p))
      end
  end.

Definition processPolygon (poly : Polygon) (ctx : Context) : PolygonResult :=
  match Points poly with
  | [] => mkPolygonResult zeroBbox (F32.of_Z 0) false (Some poly) None
  | p0 :: _ =>
      let bbox := mkBbox (pX p0) (pY p0) (pX p0) (pY p0) in
      match rangePoints ctx 0 (Points poly) bbox (F32.of_Z 0) with
      | inl e => errResult e
      | inr (bbox', sumWeight) =>
          let isHeavy := F32.ge sumWeight (F32.of_Z 100) in
          mkPolygonResult bbox' sumWeight isHeavy (Some poly) None
      end
  end.

(** ** collectResults *)

(** The three [log.Fatalf] calls after the loop. *)
Inductive fatal : Type :=
| NotAllProcessed (e : error)
| TimeExceeded (e : error)
| UnknownError (processed total : Z).

Inductive event : Type :=
| LogPrintf (e : error)
| Send (r : Result)
| LogFatalf (f : fatal).

(** The local variables [result], [processed] and [processingError]. *)
Record collector : Type := mkCollector {
  result : Result;
  processed : Z;
  processingError : option error
}.

Definition initResult : Result :=
  mkResult (mkBbox math.MaxInt math.MaxInt math.MinInt math.MinInt) (F32.of_Z 0) [].

Definition initCollector : collector := mkCollector initResult 0 None.

Definition unionBbox (g l : Bbox) : Bbox :=
  mkBbox (MinInt (X1 g) (X1 l)) (MinInt (Y1 g) (Y1 l))
         (MaxInt (X2 g) (X2 l)) (MaxInt (Y2 g) (Y2 l)).

(** [append(result.HeavyPolygons, polygonResult.polygon)]; a success outcome
    always carries its polygon. *)
Definition appendHeavy (hs : list Polygon) (pr : PolygonResult) : list Polygon :=
  if isHeavy pr then
    match polygon pr with
    | Some p => hs ++ [p]
    | None => hs
    end
  else hs.

(** The loop body for an outcome without error, up to [processed++]. *)
Definition absorb (c : collector) (pr : PolygonResult) : collector :=
  let r := result c in
  mkCollector
    (mkResult (unionBbox (ResBbox r) (localBbox pr))
              (MaxFloat32 (MaxWeight r) (weight pr))
              (appendHeavy (HeavyPolygons r) pr))
    (processed c + 1)
    (processingError c).

(** The code after the loop; [ctxErr] is what [ctx.Err()] returns there. *)
Definition afterRange (ctxErr : option error) (total : Z) (c : collector) : list event :=
  if processed c <? total then
    match processingError c with
    | Some e => [LogFatalf (NotAllProcessed e)]
    | None =>
        match ctxErr with
        | Some e => [LogFatalf (TimeExceeded e)]
        | None => [LogFatalf (UnknownError (processed c) total)]
        end
    end
  else [].

(** [for polygonResult := range results]: the events, and the outcomes left
    unread in the channel when the function returns. *)
Fixpoint rangeResults (ctxErr : option error) (total : Z)
         (results : list PolygonResult) (c : collector)
  : list event * list PolygonResult :=
  match results with
  | [] => (afterRange ctxErr total c, [])
  | pr :: rest =>
      match err pr with
      | Some e =>
          let '(evs, unread) :=
            rangeResults ctxErr total rest
              (mkCollector (result c) (processed c) (Some e)) in
          (LogPrintf e :: evs, unread)
      | None =>
          let c' := absorb c pr in
          if processed c' =? total then ([Send (result c')], rest)
          else rangeResults ctxErr total rest c'
      end
  end.

Definition collectResults (ctxErr : option error) (results : list PolygonResult)
           (total : Z) : list event * list PolygonResult :=
  rangeResults ctxErr total results initCollector.

(** ** The final select of main *)

(** How [main] can end, given what [collectResults] did: the deadline case
    [<-ctx.Done()] exits with status 1; the case [result := <-resCh] needs
    a value sent on [resCh] and prints it as JSON; a [log.Fatalf] in
    [collectResults] ends the process. *)
Inductive mainOutcome : Type :=
| PrintJSON (r : Result)
| ExitTimeout
| ExitFatal (f : fatal).

Inductive mainEnds (evs : list event) : mainOutcome -> Prop :=
| ends_done : mainEnds evs ExitTimeout
| ends_result (r : Result) : In (Send r) evs -> mainEnds evs (PrintJSON r)
| ends_fatal (f : fatal) : In (LogFatalf f) evs -> mainEnds evs (ExitFatal f).

(** ** Reading the event list *)

(** The values put on [resCh]; [main] prints a JSON result only for a value
    it receives from that channel. *)
Definition sent (evs : list event) : list Result :=
  flat_map (fun ev => match ev with Send r => [r] | _ => [] end) evs.

(** The errors carried by a list of outcomes, in arrival order. *)
Definition errors (results : list PolygonResult) : list error :=
  flat_map (fun pr => match err pr with Some e => [e] | None => [] end) results.

Definition succeeded (pr : PolygonResult) : bool :=
  match err pr with
  | None => true
  | Some _ => false
  end.

(** The success outcomes of a list, and how many they are. *)
Definition successes (results : list PolygonResult) : list PolygonResult :=
  filter succeeded results.

Definition countOk (results : list PolygonResult) : Z :=
  Z.of_nat (length (successes results)).

(** One iteration of the loop of [collectResults] on the local variables,
    whichever branch it takes. *)
Definition consume (c : collector) (pr : PolygonResult) : collector :=
  match err pr with
  | Some e => mkCollector (result c) (processed c) (Some e)
  | None => absorb c pr
  end.

(** ** Specification vocabulary *)

Definition is_min (m : Z) (l : list Z) : Prop := In m l /\ Forall (fun x => m <= x) l.

Definition is_max (m : Z) (l : list Z) : Prop := In m l /\ Forall (fun x => x <= m) l.

Definition allPoints (polys : list Polygon) : list WeightedPoint :=
  flat_map Points polys.

Definition validBbox (b : Bbox) : Prop := X1 b <= X2 b /\ Y1 b <= Y2 b.

Definition pointInRange (p : WeightedPoint) : Prop :=
  int_range (pX p) /\ int_range (pY p).

(** The sum of the weights of a point sequence, added from left to right in
    [float32] starting from [float32(0)]. *)
Definition sumWeights (ps : list WeightedPoint) : float32 :=
  fold_left F32.add (map Weight ps) (F32.of_Z 0).

(** The context fires for [processPolygon] at index [k]: [k] is the first
    polled index of the sequence at which [ctx.Err()] is not nil. *)
Definition cancelledAt (ctx : Context) (ps : list WeightedPoint) (k : nat) (e : error) : Prop :=
  (k < length ps)%nat /\ (k mod 1000 = 0)%nat /\ ctx k = Some e /\
  forall j, (j < k)%nat -> (j mod 1000 = 0)%nat -> ctx j = None.

(** [out] is the outcome of reducing [poly] under some context, and carries
    no error. *)
Definition reducedFrom (poly : Polygon) (out : PolygonResult) : Prop :=
  err out = None /\ exists ctx, out = processPolygon poly ctx.

(** The failure to expect when the channel closes early: the error of the
    latest failed outcome if any, else the fired context, else the count. *)
Definition incompleteFailure (ctxErr : option error) (results : list PolygonResult)
           (total : Z) : fatal :=
  match rev (errors results) with
  | e :: _ => NotAllProcessed e
  | [] =>
      match ctxErr with
      | Some e => TimeExceeded e
      | None => UnknownError (countOk results) total
      end
  end.

(** ** Concrete values used in the examples *)

Definition wp (x y w : Z) : WeightedPoint := mkWeightedPoint (mkPoint x y) (F32.of_Z w).

Definition fired (e : ctxError) : Context := fun _ => Some (ErrContext e).

(** A context whose deadline passes while index [n] is being processed. *)
Definition firedFrom (n : nat) (e : ctxError) : Context :=
  fun i => if (n <=? i)%nat then Some (ErrContext e) else None.

Definition readme_polygon : Polygon :=
  mkPolygon [wp 0 10 100; wp 10 10 2; wp 10 0 3; wp 0 0 4].

(** A polygon of 1500 points, each of weight 1, on a diagonal. *)
Definition diagonal (n : nat) : Polygon :=
  mkPolygon (map (fun i => wp (Z.of_nat i) (Z.of_nat i) 1) (seq 0 n)).

(** The largest [float32] below 100. *)
Definition below100 : float32 := S754_finite false 13107199 (-17).

Definition status500 : error := ErrFetch "status 500".

Definition square : Polygon := mkPolygon [wp 1 1 60; wp 3 4 60].

Definition negative_polygon : Polygon := mkPolygon [wp 1 2 (-5)].

Definition far_polygon : Polygon := mkPolygon [wp 5 7 1].

Definition empty_polygon : Polygon := mkPolygon [].

(** ** fetchAndProcessPolygon *)

(** What the network gives to one call. [NewRequestWithContext] is the
    error of [http.NewRequestWithContext], if any; [Do] is what [client.Do]
    returns, an error or a response; of a response, [StatusCode] and what
    [io.ReadAll] makes of its body, an error or the bytes read. Errors of
    the libraries are given by their messages. *)
Record Response : Type := mkResponse {
  StatusCode : Z;
  ReadAll : string + string
}.

Record exchange : Type := mkExchange {
  NewRequestWithContext : option string;
  Do : string + Response
}.

(** [fmt.Errorf(format, err)] for a format that ends in [%v], and
    [fmt.Errorf(format, n)] for one that ends in [%d]; [format] is the text
    before the verb. *)
Definition Errorf_v (format detail : string) : error :=
  ErrFetch (format ++ detail).

Definition Errorf_d (format : string) (n : Z) : error :=
  ErrFetch (format ++ NilZero.string_of_int (Z.to_int n)).

Definition StatusOK : Z := 200.

Section Fetch.
(** [json.Unmarshal(respBody, &poly)] on a fresh [Polygon]: the error, or
    the polygon decoded. *)
Variable Unmarshal : string -> string + Polygon.

(** The parameter [idx] is not used by the function. *)
Definition fetchAndProcessPolygon (net : exchange) (ctx : Context) (idx : Z) : PolygonResult :=
  match NewRequestWithContext net with
  | Some e => errResult (Errorf_v "ошибка создания запроса: " e)
  | None =>
      match Do net with
      | inl e => errResult (Errorf_v "ошибка HTTP запроса: " e)
      | inr resp =>
          if negb (StatusCode resp =? StatusOK)
          then errResult (Errorf_d "некорректный статус ответа: " (StatusCode resp))
          else
            match ReadAll resp with
            | inl e => errResult (Errorf_v "ошибка чтения ответа: " e)
            | inr respBody =>
                match Unmarshal respBody with
                | inl e => errResult (Errorf_v "ошибка разбора JSON: " e)
                | inr poly => processPolygon poly ctx
                end
            end
      end
  end.
End Fetch.

(** ** The goroutines of main *)

(** The goroutine that feeds [indices], from index [i] with [remaining]
    iterations to go. [takeDone i] says that the select of iteration [i]
    takes the case [<-ctx.Done()]; the other case, [indices <- i], is always
    ready, the channel having room for [polygonsNum] values. The list is
    what was sent on [indices] when the goroutine closes it. *)
Fixpoint feedIndices (takeDone : nat -> bool) (i : nat) (remaining : nat) : list Z :=
  match remaining with
  | O => []
  | S n => if takeDone i then [] else Z.of_nat i :: feedIndices takeDone (S i) n
  end.

Definition dispatcher (takeDone : nat -> bool) (polygonsNum : Z) : list Z :=
  feedIndices takeDone 0 (Z.to_nat polygonsNum).

(** The two selects of a worker at its [n]-th iteration: [doneOnTake n] says
    that the outer select takes [<-ctx.Done()] rather than an index,
    [doneOnSend n] that the inner one takes [<-ctx.Done()] rather than
    sending the outcome. *)
Record workerSelects : Type := mkWorkerSelects {
  doneOnTake : nat -> bool;
  doneOnSend : nat -> bool
}.

(** One worker goroutine from its [n]-th iteration on. [received] is what
    the worker gets from [indices] until the channel is closed and empty;
    [fetch idx] is the outcome of the call [fetchAndProcessPolygon(ctx, idx)].
    The list is what the worker sends on [results] before it returns. *)
Fixpoint worker (fetch : Z -> PolygonResult) (sel : workerSelects) (n : nat)
         (received : list Z) : list PolygonResult :=
  match received with
  | [] => []
  | idx :: rest =>
      if doneOnTake sel n then []
      else
        let polygonResult := fetch idx in
        if doneOnSend sel n then []
        else polygonResult :: worker fetch sel (S n) rest
  end.

Definition neverDone : nat -> bool := fun _ => false.


(** ** More specification vocabulary *)

Definition inBbox (b : Bbox) (p : WeightedPoint) : Prop :=
  X1 b <= pX p <= X2 b /\ Y1 b <= pY p <= Y2 b.

(** The box [l] lies within the box [g]. *)
Definition withinBbox (g l : Bbox) : Prop :=
  X1 g <= X1 l /\ Y1 g <= Y1 l /\ X2 l <= X2 g /\ Y2 l <= Y2 g.

Definition heavyPolygon (poly : Polygon) : bool :=
  F32.ge (sumWeights (Points poly)) (F32.of_Z 100).

(** The polygons a list of outcomes contributes to [HeavyPolygons]. *)
Definition heavyOf (results : list PolygonResult) : list Polygon :=
  flat_map (fun pr => appendHeavy [] pr) results.

Definition isNaN (a : float32) : bool :=
  match a with
  | S754_nan => true
  | _ => false
  end.

(** A zero or a finite number: what a JSON number decodes to. *)
Definition isFinite (a : float32) : bool :=
  match a with
  | S754_zero _ | S754_finite _ _ _ => true
  | _ => false
  end.

(** A position on the line for every [float32] that is not a NaN, compared
    lexicographically: the sign class first, then exponent and mantissa. *)
Definition rank (a : float32) : Z * Z * Z :=
  match a with
  | S754_infinity true => (-2, 0, 0)
  | S754_finite true m e => (-1, - e, - Z.pos m)
  | S754_zero _ => (0, 0, 0)
  | S754_nan => (0, 0, 0)
  | S754_finite false m e => (1, e, Z.pos m)
  | S754_infinity false => (2, 0, 0)
  end.

Definition rank_le (a b : Z * Z * Z) : Prop :=
  let '(a1, a2, a3) := a in
  let '(b1, b2, b3) := b in
  a1 < b1 \/ (a1 = b1 /\ (a2 < b2 \/ (a2 = b2 /\ a3 <= b3))).

(** The events of a list that are fatal logs. *)
Definition fatals (evs : list event) : list fatal :=
  flat_map (fun ev => match ev with LogFatalf f => [f] | _ => [] end) evs.

(** The errors logged with [log.Printf]. *)
Definition logged (evs : list event) : list error :=
  flat_map (fun ev => match ev with LogPrintf e => [e] | _ => [] end) evs.

(** A polygon together with the context its reduction runs under. *)
Definition reduceJob (job : Polygon * Context) : PolygonResult :=
  processPolygon (fst job) (snd job).

(** * Properties *)

Example readme_polygon_reduced :
  processPolygon readme_polygon background =
  mkPolygonResult (mkBbox 0 0 10 10) (F32.of_Z 109) true (Some readme_polygon) None.
Proof. vm_compute. reflexivity. Qed.

Example readme_run :
  collectResults None [processPolygon readme_polygon background] 1 =
  ([Send (mkResult (mkBbox 0 0 10 10) (F32.of_Z 109) [readme_polygon])], []).
Proof. vm_compute. reflexivity. Qed.

(** ** Helper lemmas: integers *)

Lemma MinInt_min (a b : Z) : MinInt a b = Z.min a b.
Proof. unfold MinInt. destruct (Z.ltb_spec a b); lia. Qed.

Lemma MaxInt_max (a b : Z) : MaxInt a b = Z.max a b.
Proof. unfold MaxInt. rewrite Z.gtb_ltb. destruct (Z.ltb_spec b a); lia. Qed.

Lemma is_min_unique (m m' : Z) (l : list Z) : is_min m l -> is_min m' l -> m = m'.
Proof.
  intros [Hin Hle] [Hin' Hle'].
  rewrite Forall_forall in Hle, Hle'.
  apply Hle in Hin'. apply Hle' in Hin. lia.
Qed.

Lemma is_max_unique (m m' : Z) (l : list Z) : is_max m l -> is_max m' l -> m = m'.
Proof.
  intros [Hin Hle] [Hin' Hle'].
  rewrite Forall_forall in Hle, Hle'.
  apply Hle in Hin'. apply Hle' in Hin. lia.
Qed.

Lemma fold_min_is_min (l : list Z) (a : Z) : is_min (fold_left Z.min l a) (a :: l).
Proof.
  revert a. induction l as [|x l IH]; intros a; simpl.
  - split; [now left | constructor; [lia | constructor]].
  - destruct (IH (Z.min a x)) as [Hin Hle]. split.
    + destruct Hin as [Hin | Hin]; [|now right; right].
      rewrite <- Hin. destruct (Z.min_spec a x) as [[_ ->] | [_ ->]]; [now left | now right; left].
    + inversion Hle as [|y l' Hy Hl]; subst.
      constructor; [lia | constructor; [lia | assumption]].
Qed.

Lemma fold_max_is_max (l : list Z) (a : Z) : is_max (fold_left Z.max l a) (a :: l).
Proof.
  revert a. induction l as [|x l IH]; intros a; simpl.
  - split; [now left | constructor; [lia | constructor]].
  - destruct (IH (Z.max a x)) as [Hin Hle]. split.
    + destruct Hin as [Hin | Hin]; [|now right; right].
      rewrite <- Hin. destruct (Z.max_spec a x) as [[_ ->] | [_ ->]]; [now right; left | now left].
    + inversion Hle as [|y l' Hy Hl]; subst.
      constructor; [lia | constructor; [lia | assumption]].
Qed.

(** ** Helper lemmas: the loop of processPolygon *)

Lemma pollCtx_Some (ctx : Context) (i : nat) (e : error) :
  pollCtx ctx i = Some e <-> (i mod 1000 = 0)%nat /\ ctx i = Some e.
Proof.
  unfold pollCtx. destruct (Nat.eqb_spec (i mod 1000) 0) as [Hm | Hm].
  - tauto.
  - split; [discriminate | tauto].
Qed.

Lemma pollCtx_None (ctx : Context) (i : nat) :
  pollCtx ctx i = None <-> ((i mod 1000 = 0)%nat -> ctx i = None).
Proof.
  unfold pollCtx. destruct (Nat.eqb_spec (i mod 1000) 0) as [Hm | Hm]; tauto.
Qed.

Lemma rangePoints_done (ctx : Context) (ps : list WeightedPoint) :
  forall i bbox w bbox' w',
    rangePoints ctx i ps bbox w = inr (bbox', w') ->
    bbox' = fold_left growBbox ps bbox /\
    w' = fold_left F32.add (map Weight ps) w /\
    forall k, (k < length ps)%nat -> pollCtx ctx (i + k) = None.
Proof.
  induction ps as [|p ps IH]; intros i bbox w bbox' w' H; simpl in *.
  - inversion H; subst. repeat split. intros k Hk. lia.
  - destruct (pollCtx ctx i) eqn:Hp; [discriminate|].
    apply IH in H. destruct H as (Hb & Hw & Hn). repeat split; trivial.
    intros [|k] Hk.
    + now rewrite Nat.add_0_r.
    + replace (i + S k)%nat with (S i + k)%nat by lia. apply Hn. lia.
Qed.

Lemma rangePoints_abort (ctx : Context) (ps : list WeightedPoint) :
  forall i bbox w e,
    rangePoints ctx i ps bbox w = inl e ->
    exists k, (k < length ps)%nat /\ pollCtx ctx (i + k) = Some e /\
              forall j, (j < k)%nat -> pollCtx ctx (i + j) = None.
Proof.
  induction ps as [|p ps IH]; intros i bbox w e H; simpl in *.
  - discriminate.
  - destruct (pollCtx ctx i) eqn:Hp.
    + inversion H; subst. exists 0%nat. rewrite Nat.add_0_r.
      repeat split; [lia | assumption | intros j Hj; lia].
    + apply IH in H. destruct H as (k & Hk & Hs & Hn).
      exists (S k). replace (i + S k)%nat with (S i + k)%nat by lia.
      repeat split; [lia | assumption |].
      intros [|j] Hj.
      * now rewrite Nat.add_0_r.
      * replace (i + S j)%nat with (S i + j)%nat by lia. apply Hn. lia.
Qed.

Lemma rangePoints_fires (ctx : Context) (ps : list WeightedPoint) :
  forall i bbox w k e,
    (k < length ps)%nat ->
    pollCtx ctx (i + k) = Some e ->
    (forall j, (j < k)%nat -> pollCtx ctx (i + j) = None) ->
    rangePoints ctx i ps bbox w = inl e.
Proof.
  induction ps as [|p ps IH]; intros i bbox w k e Hk Hs Hn; simpl in *.
  - lia.
  - destruct k as [|k].
    + rewrite Nat.add_0_r in Hs. now rewrite Hs.
    + rewrite (eq_trans (f_equal (pollCtx ctx) (eq_sym (Nat.add_0_r i))) (Hn 0%nat ltac:(lia))).
      apply (IH (S i) _ _ k e); [lia | | ].
      * now replace (S i + k)%nat with (i + S k)%nat by lia.
      * intros j Hj. replace (S i + j)%nat with (i + S j)%nat by lia. apply Hn. lia.
Qed.

Lemma cancelledAt_poll (ctx : Context) (ps : list WeightedPoint) (k : nat) (e : error) :
  cancelledAt ctx ps k e <->
  (k < length ps)%nat /\ pollCtx ctx k = Some e /\
  forall j, (j < k)%nat -> pollCtx ctx j = None.
Proof.
  unfold cancelledAt. rewrite pollCtx_Some. split.
  - intros (Hk & Hm & Hc & Hn). repeat split; trivial.
    intros j Hj. apply pollCtx_None. auto.
  - intros (Hk & (Hm & Hc) & Hn). repeat split; trivial.
    intros j Hj Hjm. exact (proj1 (pollCtx_None ctx j) (Hn j Hj) Hjm).
Qed.

Lemma growBbox_X1 (ps : list WeightedPoint) :
  forall b, X1 (fold_left growBbox ps b) = fold_left Z.min (map pX ps) (X1 b).
Proof.
  induction ps as [|p ps IH]; intros b; simpl; [reflexivity|].
  rewrite IH. simpl. now rewrite MinInt_min.
Qed.

Lemma growBbox_Y1 (ps : list WeightedPoint) :
  forall b, Y1 (fold_left growBbox ps b) = fold_left Z.min (map pY ps) (Y1 b).
Proof.
  induction ps as [|p ps IH]; intros b; simpl; [reflexivity|].
  rewrite IH. simpl. now rewrite MinInt_min.
Qed.

Lemma growBbox_X2 (ps : list WeightedPoint) :
  forall b, X2 (fold_left growBbox ps b) = fold_left Z.max (map pX ps) (X2 b).
Proof.
  induction ps as [|p ps IH]; intros b; simpl; [reflexivity|].
  rewrite IH. simpl. now rewrite MaxInt_max.
Qed.

Lemma growBbox_Y2 (ps : list WeightedPoint) :
  forall b, Y2 (fold_left growBbox ps b) = fold_left Z.max (map pY ps) (Y2 b).
Proof.
  induction ps as [|p ps IH]; intros b; simpl; [reflexivity|].
  rewrite IH. simpl. now rewrite MaxInt_max.
Qed.

(** What [processPolygon] returns, by cases on the point sequence and on
    the outcome of its loop. *)
Lemma processPolygon_cases (poly : Polygon) (ctx : Context) :
  (Points poly = [] /\
   processPolygon poly ctx = mkPolygonResult zeroBbox (F32.of_Z 0) false (Some poly) None) \/
  (exists k e,
      cancelledAt ctx (Points poly) k e /\ processPolygon poly ctx = errResult e) \/
  (exists p0 rest,
      Points poly = p0 :: rest /\
      (forall k, (k < length (Points poly))%nat -> pollCtx ctx k = None) /\
      processPolygon poly ctx =
      mkPolygonResult
        (fold_left growBbox (Points poly) (mkBbox (pX p0) (pY p0) (pX p0) (pY p0)))
        (sumWeights (Points poly))
        (F32.ge (sumWeights (Points poly)) (F32.of_Z 100))
        (Some poly) None).
Proof.
  unfold processPolygon. destruct (Points poly) as [|p0 rest] eqn:Hp.
  - left. split; reflexivity.
  - right.
    destruct (rangePoints ctx 0 (p0 :: rest) _ (F32.of_Z 0)) as [e | [b w]] eqn:Hr.
    + left. apply rangePoints_abort in Hr. destruct Hr as (k & Hk & Hs & Hn).
      exists k, e. split; [|reflexivity].
      apply cancelledAt_poll. repeat split; trivial.
    + right. exists p0, rest. split; [reflexivity|].
      apply rangePoints_done in Hr. destruct Hr as (Hb & Hw & Hn).
      split; [exact Hn|]. subst b w. reflexivity.
Qed.

Lemma cancelledAt_processPolygon (poly : Polygon) (ctx : Context) (k : nat) (e : error) :
  cancelledAt ctx (Points poly) k e -> processPolygon poly ctx = errResult e.
Proof.
  intros Hc. apply cancelledAt_poll in Hc. destruct Hc as (Hk & Hs & Hn).
  unfold processPolygon. destruct (Points poly) as [|p0 rest] eqn:Hp.
  - simpl in Hk. lia.
  - now rewrite (rangePoints_fires ctx (p0 :: rest) 0 _ _ k e Hk Hs Hn).
Qed.

(** The local box of a polygon with at least one point, reduced to the end:
    its corners are the extreme coordinates of the points. *)
Lemma localBbox_extremes (p0 : WeightedPoint) (rest : list WeightedPoint) :
  let b := fold_left growBbox (p0 :: rest) (mkBbox (pX p0) (pY p0) (pX p0) (pY p0)) in
  is_min (X1 b) (map pX (p0 :: rest)) /\ is_min (Y1 b) (map pY (p0 :: rest)) /\
  is_max (X2 b) (map pX (p0 :: rest)) /\ is_max (Y2 b) (map pY (p0 :: rest)).
Proof.
  intros b. subst b.
  rewrite growBbox_X1, growBbox_Y1, growBbox_X2, growBbox_Y2. cbn [X1 Y1 X2 Y2].
  pose proof (fold_min_is_min (map pX (p0 :: rest)) (pX p0)) as [Hx1 Hx1'].
  pose proof (fold_min_is_min (map pY (p0 :: rest)) (pY p0)) as [Hy1 Hy1'].
  pose proof (fold_max_is_max (map pX (p0 :: rest)) (pX p0)) as [Hx2 Hx2'].
  pose proof (fold_max_is_max (map pY (p0 :: rest)) (pY p0)) as [Hy2 Hy2'].
  unfold is_min, is_max.
  repeat split;
    try (match goal with H : Forall _ (_ :: _) |- Forall _ _ => now inversion H end);
    match goal with
    | H : In ?m (?a :: ?l) |- In ?m ?l =>
        destruct H as [H | H]; [rewrite <- H; now left | exact H]
    end.
Qed.

(** ** Helper lemmas: the loop of collectResults *)

Lemma consume_ok (c : collector) (pr : PolygonResult) :
  err pr = None -> consume c pr = absorb c pr.
Proof. unfold consume. now intros ->. Qed.

Lemma consume_err (c : collector) (pr : PolygonResult) (e : error) :
  err pr = Some e -> consume c pr = mkCollector (result c) (processed c) (Some e).
Proof. unfold consume. now intros ->. Qed.

Lemma errors_app (l1 l2 : list PolygonResult) : errors (l1 ++ l2) = (errors l1 ++ errors l2)%list.
Proof. unfold errors. apply flat_map_app. Qed.

Lemma successes_app (l1 l2 : list PolygonResult) :
  successes (l1 ++ l2) = (successes l1 ++ successes l2)%list.
Proof. unfold successes. apply filter_app. Qed.

Lemma countOk_app (l1 l2 : list PolygonResult) : countOk (l1 ++ l2) = countOk l1 + countOk l2.
Proof. unfold countOk. rewrite successes_app, length_app. lia. Qed.

Lemma countOk_cons_ok (pr : PolygonResult) (l : list PolygonResult) :
  err pr = None -> countOk (pr :: l) = 1 + countOk l.
Proof.
  unfold countOk, successes, succeeded. cbn [filter]. intros ->.
  cbn [length]. rewrite Nat2Z.inj_succ. lia.
Qed.

Lemma countOk_cons_err (pr : PolygonResult) (l : list PolygonResult) (e : error) :
  err pr = Some e -> countOk (pr :: l) = countOk l.
Proof. unfold countOk, successes, succeeded. cbn [filter]. now intros ->. Qed.

Lemma countOk_nonneg (l : list PolygonResult) : 0 <= countOk l.
Proof. unfold countOk. lia. Qed.

Lemma countOk_le_length (l : list PolygonResult) : countOk l <= Z.of_nat (length l).
Proof. unfold countOk, successes. pose proof (filter_length_le succeeded l). lia. Qed.

Lemma sent_logs (es : list error) : sent (map LogPrintf es) = [].
Proof. induction es as [|e es IH]; [reflexivity | exact IH]. Qed.

Lemma sent_app (l1 l2 : list event) : sent (l1 ++ l2) = (sent l1 ++ sent l2)%list.
Proof. unfold sent. apply flat_map_app. Qed.

Lemma sent_afterRange (ctxErr : option error) (total : Z) (c : collector) :
  sent (afterRange ctxErr total c) = [].
Proof.
  unfold afterRange. destruct (processed c <? total); [|reflexivity].
  destruct (processingError c); [reflexivity|]. destruct ctxErr; reflexivity.
Qed.

Lemma consume_processed (l : list PolygonResult) :
  forall c, processed (fold_left consume l c) = processed c + countOk l.
Proof.
  induction l as [|pr l IH]; intros c; simpl.
  - unfold countOk. simpl. lia.
  - rewrite IH. destruct (err pr) as [e|] eqn:He.
    + rewrite (consume_err _ _ _ He), (countOk_cons_err _ _ _ He). reflexivity.
    + rewrite (consume_ok _ _ He), (countOk_cons_ok _ _ He).
      unfold absorb. cbn [processed]. lia.
Qed.

(** The result being built depends on the success outcomes only. *)
Lemma consume_result (l : list PolygonResult) :
  forall c, result (fold_left consume l c) = result (fold_left absorb (successes l) c).
Proof.
  induction l as [|pr l IH]; intros c; simpl; [reflexivity|].
  unfold successes, succeeded in *. simpl. destruct (err pr) as [e|] eqn:He.
  - rewrite (consume_err _ _ _ He), IH.
    generalize (filter (fun pr0 => match err pr0 with None => true | Some _ => false end) l).
    clear. intros l. revert c. induction l as [|x l IHl]; intros c; simpl; [reflexivity|].
    specialize (IHl (absorb c x)). simpl in IHl. rewrite <- IHl. reflexivity.
  - rewrite (consume_ok _ _ He). simpl. apply IH.
Qed.

(** [processingError] holds the error of the latest failed outcome. *)
Lemma consume_processingError (l : list PolygonResult) :
  forall c, processingError (fold_left consume l c) =
            match rev (errors l) with
            | e :: _ => Some e
            | [] => processingError c
            end.
Proof.
  induction l as [|pr l IH] using rev_ind; intros c; [reflexivity|].
  rewrite fold_left_app, errors_app, rev_app_distr. simpl.
  unfold errors at 1. simpl. destruct (err pr) as [e|] eqn:He.
  - rewrite (consume_err _ _ _ He). reflexivity.
  - rewrite (consume_ok _ _ He). simpl. apply IH.
Qed.

Section RangeResults.
Variable ctxErr : option error.
Variable total : Z.

(** How the loop ends: either with [resCh <- result] at the outcome [last]
    that makes [processed] equal to [total], the later outcomes staying
    unread; or at the close of the channel, every outcome read. *)
Lemma rangeResults_spec (results : list PolygonResult) :
  forall c evs unread,
    rangeResults ctxErr total results c = (evs, unread) ->
    (exists pre last,
        results = (pre ++ last :: unread)%list /\
        err last = None /\
        processed c + countOk pre = total - 1 /\
        evs = (map LogPrintf (errors pre) ++
               [Send (result (fold_left consume (pre ++ [last]) c))])%list) \/
    (unread = [] /\
     evs = (map LogPrintf (errors results) ++
            afterRange ctxErr total (fold_left consume results c))%list).
Proof.
  induction results as [|pr rest IH]; intros c evs unread H; cbn [rangeResults] in H.
  - right. inversion H; subst. split; reflexivity.
  - destruct (err pr) as [e|] eqn:He.
    + destruct (rangeResults ctxErr total rest _) as [evs1 unread1] eqn:Hr.
      inversion H; subst; clear H.
      apply IH in Hr. destruct Hr as [(pre & last & Hres & Hl & Hp & Hevs) | (Hu & Hevs)].
      * left. exists (pr :: pre), last. subst rest evs1. repeat split; trivial.
        -- rewrite (countOk_cons_err _ _ _ He). exact Hp.
        -- simpl. unfold errors at 1. simpl. rewrite He. simpl.
           rewrite (consume_err _ _ _ He). reflexivity.
      * right. subst. split; [reflexivity|].
        simpl. unfold errors at 1. simpl. rewrite He. simpl.
        rewrite (consume_err _ _ _ He). reflexivity.
    + destruct (Z.eqb_spec (processed (absorb c pr)) total) as [Heq | Hne].
      * left. exists [], pr. inversion H; subst evs unread; clear H.
        repeat split; trivial.
        -- unfold countOk, absorb in *.
           cbn [processed successes filter length Z.of_nat] in *. lia.
        -- simpl. rewrite (consume_ok _ _ He). reflexivity.
      * apply IH in H. destruct H as [(pre & last & Hres & Hl & Hp & Hevs) | (Hu & Hevs)].
        -- left. exists (pr :: pre), last. subst rest evs. repeat split; trivial.
           ++ rewrite (countOk_cons_ok _ _ He).
              unfold absorb in Hp. cbn [processed] in Hp. lia.
           ++ simpl. unfold errors at 1. simpl. rewrite He. simpl.
              rewrite (consume_ok _ _ He). reflexivity.
        -- right. subst. split; [reflexivity|].
           simpl. unfold errors at 1. simpl. rewrite He. simpl.
           rewrite (consume_ok _ _ He). reflexivity.
Qed.

(** The channel is read to its close when the success outcomes are too
    few for [processed] to reach [total]. *)
Lemma rangeResults_drained (results : list PolygonResult) (c : collector) :
  processed c + countOk results < total \/ total <= processed c ->
  rangeResults ctxErr total results c =
  ((map LogPrintf (errors results) ++
    afterRange ctxErr total (fold_left consume results c))%list, []).
Proof.
  intros Hlt.
  destruct (rangeResults ctxErr total results c) as [evs unread] eqn:Hr.
  apply rangeResults_spec in Hr.
  destruct Hr as [(pre & last & Hres & Hl & Hp & Hevs) | (Hu & Hevs)].
  - exfalso. subst results.
    rewrite countOk_app, (countOk_cons_ok _ _ Hl) in Hlt.
    pose proof (countOk_nonneg unread). pose proof (countOk_nonneg pre). lia.
  - now subst.
Qed.
End RangeResults.

(** ** processPolygon: empty polygons, cancellation, the heavy flag *)

(** C10: for a polygon whose point sequence is empty, [processPolygon]
    returns a success outcome (no error), whatever the context answers,
    also when it has already fired: the early return for the empty sequence
    comes before every look at the context. *)
Theorem processPolygon_empty_ignores_cancellation (poly : Polygon) (ctx : Context) :
  Points poly = [] ->
  processPolygon poly ctx = mkPolygonResult zeroBbox (F32.of_Z 0) false (Some poly) None /\
  err (processPolygon poly ctx) = None.
Proof.
  intros Hp. unfold processPolygon. rewrite Hp. split; reflexivity.
Qed.

Lemma processPolygon_empty_ignores_cancellation_witness :
  fired DeadlineExceeded 0%nat = Some (ErrContext DeadlineExceeded) /\
  err (processPolygon (mkPolygon []) (fired DeadlineExceeded)) = None.
Proof.
  split; [reflexivity|].
  apply (processPolygon_empty_ignores_cancellation (mkPolygon []) (fired DeadlineExceeded)).
  reflexivity.
Defined.

(** C5: whenever [processPolygon] stops because a poll of the context, made
    at the indices that are multiples of 1000, finds it fired, the outcome
    is an error outcome whose box, weight, flag and polygon are the zero
    values: what was accumulated so far is dropped. An outcome without error
    saw no fired poll and carries the reduction of the whole sequence, and
    an outcome with an error comes from a fired poll. *)
Theorem processPolygon_cancelled_no_partial (poly : Polygon) (ctx : Context) :
  (forall k e,
      cancelledAt ctx (Points poly) k e ->
      processPolygon poly ctx = errResult e /\
      err (processPolygon poly ctx) = Some e /\
      localBbox (processPolygon poly ctx) = zeroBbox /\
      weight (processPolygon poly ctx) = F32.of_Z 0 /\
      isHeavy (processPolygon poly ctx) = false /\
      polygon (processPolygon poly ctx) = None) /\
  (err (processPolygon poly ctx) = None ->
   (forall k, (k < length (Points poly))%nat -> pollCtx ctx k = None) /\
   polygon (processPolygon poly ctx) = Some poly /\
   weight (processPolygon poly ctx) = sumWeights (Points poly) /\
   forall p0 rest,
     Points poly = p0 :: rest ->
     localBbox (processPolygon poly ctx) =
     fold_left growBbox (Points poly) (mkBbox (pX p0) (pY p0) (pX p0) (pY p0))) /\
  (forall e,
      err (processPolygon poly ctx) = Some e ->
      exists k, cancelledAt ctx (Points poly) k e).
Proof.
  split; [|split].
  - intros k e Hc. rewrite (cancelledAt_processPolygon _ _ _ _ Hc).
    repeat split; reflexivity.
  - intros Herr.
    destruct (processPolygon_cases poly ctx)
      as [(Hp & Hr) | [(k & e & Hc & Hr) | (p0 & rest & Hp & Hn & Hr)]].
    + rewrite Hr, Hp. repeat split; try reflexivity.
      * intros k Hk. simpl in Hk. lia.
      * intros p0 rest Habs. discriminate.
    + rewrite Hr in Herr. discriminate.
    + rewrite Hr. repeat split; trivial.
      intros q0 rest' Hq. rewrite Hp in Hq. inversion Hq; subst. reflexivity.
  - intros e Herr.
    destruct (processPolygon_cases poly ctx)
      as [(Hp & Hr) | [(k & e' & Hc & Hr) | (p0 & rest & Hp & Hn & Hr)]].
    + rewrite Hr in Herr. discriminate.
    + rewrite Hr in Herr. inversion Herr; subst. now exists k.
    + rewrite Hr in Herr. discriminate.
Qed.

Lemma processPolygon_cancelled_no_partial_witness :
  cancelledAt (firedFrom 500 DeadlineExceeded) (Points (diagonal 1500)) 1000
              (ErrContext DeadlineExceeded) /\
  processPolygon (diagonal 1500) (firedFrom 500 DeadlineExceeded) =
  errResult (ErrContext DeadlineExceeded).
Proof.
  assert (Hc : cancelledAt (firedFrom 500 DeadlineExceeded) (Points (diagonal 1500)) 1000
                           (ErrContext DeadlineExceeded)).
  { unfold cancelledAt. split; [|split; [|split]].
    - unfold diagonal. cbn [Points]. rewrite length_map, length_seq. lia.
    - reflexivity.
    - reflexivity.
    - intros j Hj Hm. rewrite Nat.mod_small in Hm by exact Hj. subst j. reflexivity. }
  split; [exact Hc|].
  exact (proj1 (proj1 (processPolygon_cancelled_no_partial
                         (diagonal 1500) (firedFrom 500 DeadlineExceeded))
                      1000%nat (ErrContext DeadlineExceeded) Hc)).
Defined.

(** C4: the flag [isHeavy] returned by [processPolygon] is true exactly when
    the accumulated weight compares greater than or equal to 100; a weight
    below 100 is not heavy; for an outcome without error the weight is the
    sum of the point weights. A weight of exactly 100 is heavy, the largest
    [float32] below 100 is not. *)
Theorem processPolygon_heavy_iff_ge_100 (poly : Polygon) (ctx : Context) :
  (isHeavy (processPolygon poly ctx) = true <->
   SFcompare (weight (processPolygon poly ctx)) (F32.of_Z 100) = Some Gt \/
   SFcompare (weight (processPolygon poly ctx)) (F32.of_Z 100) = Some Eq) /\
  (SFcompare (weight (processPolygon poly ctx)) (F32.of_Z 100) = Some Lt ->
   isHeavy (processPolygon poly ctx) = false) /\
  (err (processPolygon poly ctx) = None ->
   weight (processPolygon poly ctx) = sumWeights (Points poly) /\
   isHeavy (processPolygon poly ctx) = F32.ge (sumWeights (Points poly)) (F32.of_Z 100)) /\
  isHeavy (processPolygon (mkPolygon [wp 0 0 100]) background) = true /\
  weight (processPolygon (mkPolygon [wp 0 0 100]) background) = F32.of_Z 100 /\
  isHeavy (processPolygon (mkPolygon [mkWeightedPoint (mkPoint 0 0) below100])
                          background) = false /\
  SFcompare below100 (F32.of_Z 100) = Some Lt.
Proof.
  assert (Hge : isHeavy (processPolygon poly ctx) =
                F32.ge (weight (processPolygon poly ctx)) (F32.of_Z 100)).
  { destruct (processPolygon_cases poly ctx)
      as [(Hp & Hr) | [(k & e & Hc & Hr) | (p0 & rest & Hp & Hn & Hr)]];
      rewrite Hr; reflexivity. }
  split; [|split; [|split]].
  - rewrite Hge. unfold F32.ge.
    destruct (SFcompare _ _) as [[| |]|]; split; intros H;
      try discriminate; try reflexivity; try (now left); try (now right);
      destruct H; discriminate.
  - intros Hlt. rewrite Hge. unfold F32.ge. now rewrite Hlt.
  - intros Herr.
    destruct (processPolygon_cases poly ctx)
      as [(Hp & Hr) | [(k & e & Hc & Hr) | (p0 & rest & Hp & Hn & Hr)]].
    + rewrite Hr, Hp. split; reflexivity.
    + rewrite Hr in Herr. discriminate.
    + rewrite Hr. split; reflexivity.
  - repeat split; vm_compute; reflexivity.
Qed.

Lemma processPolygon_heavy_iff_ge_100_witness :
  err (processPolygon readme_polygon background) = None /\
  weight (processPolygon readme_polygon background) = F32.of_Z 109 /\
  isHeavy (processPolygon readme_polygon background) = true.
Proof.
  assert (He : err (processPolygon readme_polygon background) = None) by reflexivity.
  pose proof (proj1 (proj2 (proj2 (processPolygon_heavy_iff_ge_100
                                     readme_polygon background))) He) as [Hw Hh].
  split; [exact He|]. split.
  - rewrite Hw. vm_compute. reflexivity.
  - rewrite Hh. vm_compute. reflexivity.
Defined.

(** ** The ordering invariant of bounding boxes *)

Lemma unionBbox_valid_l (g l : Bbox) : validBbox g -> validBbox (unionBbox g l).
Proof.
  unfold validBbox, unionBbox. cbn [X1 Y1 X2 Y2].
  rewrite !MinInt_min, !MaxInt_max. lia.
Qed.

Lemma unionBbox_valid_r (g l : Bbox) : validBbox l -> validBbox (unionBbox g l).
Proof.
  unfold validBbox, unionBbox. cbn [X1 Y1 X2 Y2].
  rewrite !MinInt_min, !MaxInt_max. lia.
Qed.

Lemma consume_valid (c : collector) (pr : PolygonResult) :
  validBbox (ResBbox (result c)) -> validBbox (ResBbox (result (consume c pr))).
Proof.
  intros Hv. unfold consume. destruct (err pr); [exact Hv|].
  unfold absorb. cbn [result ResBbox]. now apply unionBbox_valid_l.
Qed.

Lemma fold_consume_valid (l : list PolygonResult) :
  forall c, validBbox (ResBbox (result c)) ->
            validBbox (ResBbox (result (fold_left consume l c))).
Proof.
  induction l as [|pr l IH]; intros c Hv; simpl; [exact Hv|].
  apply IH. now apply consume_valid.
Qed.

(** C8: the local box of an outcome without error of a polygon with at least
    one point satisfies X1 <= X2 and Y1 <= Y2; in [collectResults] one
    iteration of the loop keeps these inequalities on the running global
    box, and they hold from the first success outcome with such a box on,
    whatever is read afterwards. *)
Theorem bbox_ordered_invariant :
  (forall poly ctx,
      Points poly <> [] ->
      err (processPolygon poly ctx) = None ->
      validBbox (localBbox (processPolygon poly ctx))) /\
  (forall c pr,
      validBbox (ResBbox (result c)) ->
      validBbox (ResBbox (result (consume c pr)))) /\
  (forall pre pr post,
      err pr = None ->
      validBbox (localBbox pr) ->
      validBbox (ResBbox (result (fold_left consume (pre ++ pr :: post) initCollector)))).
Proof.
  split; [|split].
  - intros poly ctx Hne Herr.
    destruct (processPolygon_cases poly ctx)
      as [(Hp & Hr) | [(k & e & Hc & Hr) | (p0 & rest & Hp & Hn & Hr)]].
    + contradiction.
    + rewrite Hr in Herr. discriminate.
    + rewrite Hr, Hp. cbn [localBbox].
      destruct (localBbox_extremes p0 rest) as ((_ & Hx1) & (_ & Hy1) & (_ & Hx2) & (_ & Hy2)).
      rewrite Forall_forall in Hx1, Hy1, Hx2, Hy2.
      assert (Hinx : In (pX p0) (map pX (p0 :: rest))) by now left.
      assert (Hiny : In (pY p0) (map pY (p0 :: rest))) by now left.
      specialize (Hx1 _ Hinx). specialize (Hx2 _ Hinx).
      specialize (Hy1 _ Hiny). specialize (Hy2 _ Hiny).
      unfold validBbox. lia.
  - exact consume_valid.
  - intros pre pr post Herr Hv.
    rewrite fold_left_app. cbn [fold_left].
    apply fold_consume_valid. rewrite (consume_ok _ _ Herr).
    unfold absorb. cbn [result ResBbox]. now apply unionBbox_valid_r.
Qed.

Lemma bbox_ordered_invariant_witness :
  validBbox (localBbox (processPolygon readme_polygon background)) /\
  validBbox (ResBbox (result (fold_left consume
     ([errResult (ErrFetch "status 500")] ++
      processPolygon readme_polygon background :: [processPolygon (mkPolygon []) background])
     initCollector))).
Proof.
  assert (Hv : validBbox (localBbox (processPolygon readme_polygon background))).
  { apply (proj1 bbox_ordered_invariant readme_polygon background).
    - discriminate.
    - reflexivity. }
  split; [exact Hv|].
  apply (proj2 (proj2 bbox_ordered_invariant)); [reflexivity | exact Hv].
Defined.

(** ** collectResults: delivery and failure *)

(** C9: with an expected total of 0, [collectResults] reads the channel to
    its close, logging the errors it meets, and returns without putting a
    value on [resCh] and without a fatal log: no Result is delivered, and
    the only way left for [main] to end is the deadline case, which prints
    no JSON. *)
Theorem collectResults_total_zero (ctxErr : option error) (results : list PolygonResult) :
  collectResults ctxErr results 0 = (map LogPrintf (errors results), []) /\
  sent (fst (collectResults ctxErr results 0)) = [] /\
  (forall o, mainEnds (fst (collectResults ctxErr results 0)) o -> o = ExitTimeout) /\
  collectResults ctxErr [] 0 = ([], []).
Proof.
  assert (H : collectResults ctxErr results 0 = (map LogPrintf (errors results), [])).
  { unfold collectResults. rewrite rangeResults_drained by (right; simpl; lia).
    unfold afterRange. rewrite consume_processed.
    pose proof (countOk_nonneg results) as Hn.
    destruct (Z.ltb_spec (processed initCollector + countOk results) 0) as [Hlt | Hge].
    - simpl in Hlt. lia.
    - now rewrite app_nil_r. }
  split; [exact H|]. split; [|split; [|reflexivity]].
  - rewrite H. apply sent_logs.
  - rewrite H. cbn [fst]. intros o Ho.
    destruct Ho as [| r Hin | f Hin]; [reflexivity | | ];
      apply in_map_iff in Hin; destruct Hin as (e & He & _); discriminate.
Qed.

Lemma collectResults_total_zero_witness :
  mainEnds (fst (collectResults None [] 0)) ExitTimeout /\
  ~ (exists r, mainEnds (fst (collectResults None [] 0)) (PrintJSON r)).
Proof.
  split; [constructor|].
  intros (r & Hr).
  pose proof (proj1 (proj2 (proj2 (collectResults_total_zero None []))) _ Hr) as H.
  discriminate.
Defined.

(** C7, amended: if the channel closes when fewer than [total] success
    outcomes were read, [collectResults] logs each error met and ends in one
    fatal log, and puts nothing on [resCh]. The fatal log carries the error
    of the latest failed outcome if there was one; otherwise, if the context
    has fired, a time-exceeded failure; otherwise the failure that names how
    many of the total were processed. *)
Theorem collectResults_incomplete_failure
        (ctxErr : option error) (results : list PolygonResult) (total : Z) :
  countOk results < total ->
  collectResults ctxErr results total =
  ((map LogPrintf (errors results) ++
    [LogFatalf (incompleteFailure ctxErr results total)])%list, []) /\
  sent (fst (collectResults ctxErr results total)) = [].
Proof.
  intros Hlt.
  assert (H : collectResults ctxErr results total =
              ((map LogPrintf (errors results) ++
                [LogFatalf (incompleteFailure ctxErr results total)])%list, [])).
  { unfold collectResults. rewrite rangeResults_drained by (left; simpl; lia).
    unfold afterRange, incompleteFailure.
    rewrite consume_processed, consume_processingError.
    destruct (Z.ltb_spec (processed initCollector + countOk results) total) as [_ | Hge];
      [|simpl in Hge; lia].
    destruct (rev (errors results)) as [|e es]; [|reflexivity].
    cbn [processingError initCollector processed]. destruct ctxErr; reflexivity. }
  split; [exact H|].
  rewrite H. cbn [fst]. rewrite sent_app, sent_logs. reflexivity.
Qed.

Lemma collectResults_incomplete_failure_witness :
  countOk [errResult status500; errResult (ErrContext DeadlineExceeded)] < 3 /\
  collectResults (Some (ErrContext DeadlineExceeded))
                 [errResult status500; errResult (ErrContext DeadlineExceeded)] 3 =
  ([LogPrintf status500; LogPrintf (ErrContext DeadlineExceeded);
    LogFatalf (NotAllProcessed (ErrContext DeadlineExceeded))], []).
Proof.
  assert (Hlt : countOk [errResult status500; errResult (ErrContext DeadlineExceeded)] < 3)
    by (vm_compute; reflexivity).
  split; [exact Hlt|].
  exact (proj1 (collectResults_incomplete_failure
                  (Some (ErrContext DeadlineExceeded))
                  [errResult status500; errResult (ErrContext DeadlineExceeded)] 3 Hlt)).
Defined.

(** C7 as stated fails: when two outcomes carry errors, the fatal log names
    the second one, not the first. *)
Lemma collectResults_first_error_not_surfaced :
  ~ (forall ctxErr results total e,
        countOk results < total ->
        hd_error (errors results) = Some e ->
        In (LogFatalf (NotAllProcessed e)) (fst (collectResults ctxErr results total))).
Proof.
  intros H.
  specialize (H None [errResult status500; errResult (ErrContext DeadlineExceeded)] 3 status500).
  assert (Hlt : countOk [errResult status500; errResult (ErrContext DeadlineExceeded)] < 3)
    by (vm_compute; reflexivity).
  specialize (H Hlt eq_refl).
  vm_compute in H.
  destruct H as [H | [H | [H | []]]]; discriminate.
Qed.

Lemma errors_cons_err (pr : PolygonResult) (l : list PolygonResult) (e : error) :
  err pr = Some e -> errors (pr :: l) = e :: errors l.
Proof. unfold errors. cbn [flat_map]. now intros ->. Qed.

Lemma errors_cons_ok (pr : PolygonResult) (l : list PolygonResult) :
  err pr = None -> errors (pr :: l) = errors l.
Proof. unfold errors. cbn [flat_map]. now intros ->. Qed.

Lemma rangeResults_reaches (ctxErr : option error) (total : Z)
      (last : PolygonResult) (rest : list PolygonResult) (pre : list PolygonResult) :
  forall c,
    err last = None ->
    processed c + countOk pre = total - 1 ->
    rangeResults ctxErr total (pre ++ last :: rest) c =
    ((map LogPrintf (errors pre) ++
      [Send (result (fold_left consume (pre ++ [last]) c))])%list, rest).
Proof.
  induction pre as [|pr pre IH]; intros c Hl Hp;
    rewrite <- ?app_comm_cons; cbn [app rangeResults fold_left].
  - rewrite Hl. unfold countOk in Hp. cbn in Hp.
    assert (Hq : processed (absorb c last) = total)
      by (unfold absorb; cbn [processed]; lia).
    rewrite Hq, Z.eqb_refl, (consume_ok _ _ Hl). reflexivity.
  - destruct (err pr) as [e|] eqn:He.
    + rewrite IH; [|exact Hl|].
      * rewrite (errors_cons_err _ _ _ He), (consume_err _ _ _ He). reflexivity.
      * cbn [processed]. now rewrite (countOk_cons_err _ _ _ He) in Hp.
    + rewrite (countOk_cons_ok _ _ He) in Hp.
      pose proof (countOk_nonneg pre) as Hn.
      assert (Hq : processed (absorb c pr) = processed c + 1)
        by (unfold absorb; cbn [processed]; lia).
      destruct (Z.eqb_spec (processed (absorb c pr)) total) as [Heq | Hne]; [lia|].
      rewrite IH; [|exact Hl|lia].
      rewrite (errors_cons_ok _ _ He), (consume_ok _ _ He). reflexivity.
Qed.

Lemma countOk_full (l : list PolygonResult) :
  countOk l = Z.of_nat (length l) -> Forall (fun pr => err pr = None) l.
Proof.
  induction l as [|pr l IH]; intros H; [constructor|].
  destruct (err pr) as [e|] eqn:He.
  - rewrite (countOk_cons_err _ _ _ He) in H.
    pose proof (countOk_le_length l). cbn [length] in H. lia.
  - rewrite (countOk_cons_ok _ _ He) in H. constructor; [exact He|].
    apply IH. cbn [length] in H. lia.
Qed.

Lemma successes_all (l : list PolygonResult) :
  Forall (fun pr => err pr = None) l -> successes l = l.
Proof.
  induction 1 as [|pr l He _ IH]; [reflexivity|].
  unfold successes, succeeded in *. cbn [filter]. rewrite He. now f_equal.
Qed.

(** C6: [collectResults] puts at most one Result on [resCh]. It does so at
    the outcome that brings the number of processed outcomes to [total]:
    the outcomes after it stay unread, and the value sent is the result
    built from the success outcomes read so far. Failed outcomes do not
    count as processed; when the channel carries no more than [total]
    outcomes, a Result is delivered only if there are exactly [total] of
    them and none failed. *)
Theorem collectResults_delivers_once_at_total
        (ctxErr : option error) (results : list PolygonResult) (total : Z) :
  (forall pre last rest,
      results = (pre ++ last :: rest)%list ->
      err last = None ->
      countOk pre = total - 1 ->
      collectResults ctxErr results total =
      ((map LogPrintf (errors pre) ++
        [Send (result (fold_left absorb (successes (pre ++ [last])) initCollector))])%list,
       rest)) /\
  (forall evs unread,
      collectResults ctxErr results total = (evs, unread) ->
      (length (sent evs) <= 1)%nat /\
      forall r,
        In (Send r) evs ->
        exists pre last,
          results = (pre ++ last :: unread)%list /\
          err last = None /\
          countOk pre = total - 1 /\
          countOk (pre ++ [last]) = total /\
          r = result (fold_left absorb (successes (pre ++ [last])) initCollector) /\
          evs = (map LogPrintf (errors pre) ++ [Send r])%list /\
          sent evs = [r] /\
          (Z.of_nat (length results) <= total ->
           unread = [] /\
           Z.of_nat (length results) = total /\
           Forall (fun pr => err pr = None) results)).
Proof.
  split.
  - intros pre last rest -> Hl Hp. unfold collectResults.
    rewrite rangeResults_reaches; [|exact Hl|cbn [processed initCollector]; lia].
    now rewrite consume_result.
  - intros evs unread H. unfold collectResults in H.
    apply rangeResults_spec in H.
    destruct H as [(pre & last & Hres & Hl & Hp & Hevs) | (Hu & Hevs)].
    + cbn [processed initCollector] in Hp. rewrite consume_result in Hevs.
      assert (Hs : sent evs =
                   [result (fold_left absorb (successes (pre ++ [last])) initCollector)]).
      { rewrite Hevs, sent_app, sent_logs. reflexivity. }
      split; [rewrite Hs; cbn; lia|].
      intros r Hin.
      assert (Hr : r = result (fold_left absorb (successes (pre ++ [last])) initCollector)).
      { rewrite Hevs in Hin. apply in_app_or in Hin. destruct Hin as [Hin | Hin].
        - apply in_map_iff in Hin. destruct Hin as (e & He & _). discriminate.
        - destruct Hin as [Hin | []]. now inversion Hin. }
      assert (Hcount : countOk (pre ++ [last]) = total).
      { rewrite countOk_app, (countOk_cons_ok _ _ Hl). unfold countOk at 2. cbn. lia. }
      exists pre, last.
      split; [exact Hres|]. split; [exact Hl|]. split; [lia|]. split; [exact Hcount|].
      split; [exact Hr|]. split; [now rewrite Hr|]. split; [now rewrite Hr|].
      intros Hlen.
      pose proof (countOk_le_length pre) as Hle.
      rewrite Hres, length_app in Hlen. cbn [length] in Hlen.
      assert (Hu : unread = []).
      { destruct unread; [reflexivity|]. cbn [length] in Hlen. lia. }
      subst unread. cbn [length] in Hlen.
      split; [reflexivity|]. split.
      * rewrite Hres, length_app. cbn [length]. lia.
      * rewrite Hres. apply Forall_app. split.
        -- apply countOk_full. lia.
        -- constructor; [exact Hl | constructor].
    + assert (Hs : sent evs = []).
      { rewrite Hevs, sent_app, sent_logs, sent_afterRange. reflexivity. }
      split; [rewrite Hs; cbn; lia|].
      intros r Hin. exfalso.
      assert (Hin' : In r (sent evs)).
      { unfold sent. apply in_flat_map. exists (Send r). split; [exact Hin | now left]. }
      rewrite Hs in Hin'. exact Hin'.
Qed.

(** Three outcomes for an expected total of two: the Result goes out at the
    second success, the third outcome stays in the channel. *)
Lemma collectResults_delivers_once_at_total_witness :
  collectResults None
    [processPolygon readme_polygon background; processPolygon square background;
     errResult status500] 2 =
  ([Send (mkResult (mkBbox 0 0 10 10) (F32.of_Z 120) [readme_polygon; square])],
   [errResult status500]).
Proof.
  rewrite (proj1 (collectResults_delivers_once_at_total None
                    [processPolygon readme_polygon background;
                     processPolygon square background; errResult status500] 2)
                 [processPolygon readme_polygon background]
                 (processPolygon square background)
                 [errResult status500] eq_refl eq_refl eq_refl).
  vm_compute. reflexivity.
Defined.

(** ** The global bounding box *)

Lemma fold_absorb_X1 (l : list PolygonResult) :
  forall c, X1 (ResBbox (result (fold_left absorb l c))) =
            fold_left Z.min (map (fun pr => X1 (localBbox pr)) l) (X1 (ResBbox (result c))).
Proof.
  induction l as [|pr l IH]; intros c; cbn [fold_left map]; [reflexivity|].
  rewrite IH. unfold absorb. cbn [result ResBbox unionBbox X1].
  now rewrite MinInt_min.
Qed.

Lemma fold_absorb_Y1 (l : list PolygonResult) :
  forall c, Y1 (ResBbox (result (fold_left absorb l c))) =
            fold_left Z.min (map (fun pr => Y1 (localBbox pr)) l) (Y1 (ResBbox (result c))).
Proof.
  induction l as [|pr l IH]; intros c; cbn [fold_left map]; [reflexivity|].
  rewrite IH. unfold absorb. cbn [result ResBbox unionBbox Y1].
  now rewrite MinInt_min.
Qed.

Lemma fold_absorb_X2 (l : list PolygonResult) :
  forall c, X2 (ResBbox (result (fold_left absorb l c))) =
            fold_left Z.max (map (fun pr => X2 (localBbox pr)) l) (X2 (ResBbox (result c))).
Proof.
  induction l as [|pr l IH]; intros c; cbn [fold_left map]; [reflexivity|].
  rewrite IH. unfold absorb. cbn [result ResBbox unionBbox X2].
  now rewrite MaxInt_max.
Qed.

Lemma fold_absorb_Y2 (l : list PolygonResult) :
  forall c, Y2 (ResBbox (result (fold_left absorb l c))) =
            fold_left Z.max (map (fun pr => Y2 (localBbox pr)) l) (Y2 (ResBbox (result c))).
Proof.
  induction l as [|pr l IH]; intros c; cbn [fold_left map]; [reflexivity|].
  rewrite IH. unfold absorb. cbn [result ResBbox unionBbox Y2].
  now rewrite MaxInt_max.
Qed.

Lemma Forall2_In_l {A B : Type} (R : A -> B -> Prop) (l1 : list A) (l2 : list B) (a : A) :
  Forall2 R l1 l2 -> In a l1 -> exists b, In b l2 /\ R a b.
Proof.
  induction 1 as [|x y l1 l2 Hxy _ IH]; intros Hin; [contradiction|].
  destruct Hin as [-> | Hin].
  - exists y. split; [now left | exact Hxy].
  - destruct (IH Hin) as (b & Hb & Hr). exists b. split; [now right | exact Hr].
Qed.

Lemma Forall2_In_r {A B : Type} (R : A -> B -> Prop) (l1 : list A) (l2 : list B) (b : B) :
  Forall2 R l1 l2 -> In b l2 -> exists a, In a l1 /\ R a b.
Proof.
  induction 1 as [|x y l1 l2 Hxy _ IH]; intros Hin; [contradiction|].
  destruct Hin as [-> | Hin].
  - exists x. split; [now left | exact Hxy].
  - destruct (IH Hin) as (a & Ha & Hr). exists a. split; [now right | exact Hr].
Qed.

Section GlobalExtremes.
Variable f : PolygonResult -> Z.
Variable g : WeightedPoint -> Z.
Variable polys : list Polygon.
Variables outcomes arrival : list PolygonResult.
Variable init : Z.

Hypothesis polys_nonempty : polys <> [].
Hypothesis arrival_perm : Permutation outcomes arrival.

Lemma point_in_allPoints (poly : Polygon) (x : Z) :
  In poly polys -> In x (map g (Points poly)) -> In x (map g (allPoints polys)).
Proof.
  intros Hpoly Hx. apply in_map_iff in Hx. destruct Hx as (p & <- & Hp).
  apply in_map. unfold allPoints. apply in_flat_map. now exists poly.
Qed.

Lemma first_outcome (R : Polygon -> PolygonResult -> Prop) :
  Forall2 R polys outcomes ->
  exists poly out, In poly polys /\ In out outcomes /\ R poly out.
Proof.
  intros H. inversion H as [Hp Ho | poly out ps os Hr _ Hp Ho].
  - symmetry in Hp. contradiction.
  - exists poly, out. repeat split; [now left | now left | exact Hr].
Qed.

(** The minimum of the local minima, folded from a value no point
    exceeds, is the minimum over all points, in any order of arrival. *)
Lemma global_min :
  Forall2 (fun poly out => is_min (f out) (map g (Points poly))) polys outcomes ->
  (forall p, In p (allPoints polys) -> g p <= init) ->
  is_min (fold_left Z.min (map f arrival) init) (map g (allPoints polys)).
Proof.
  intros Hloc Hinit.
  destruct (fold_min_is_min (map f arrival) init) as [Hin Hle].
  set (m := fold_left Z.min (map f arrival) init) in *.
  rewrite Forall_forall in Hle.
  assert (Hlow : forall out, In out outcomes -> m <= f out).
  { intros out Hout. apply Hle. right. apply in_map.
    now apply (Permutation_in _ arrival_perm). }
  split.
  - destruct Hin as [Hin | Hin].
    + destruct (first_outcome _ Hloc) as (poly0 & out0 & Hpoly0 & Hout0 & [Hin0 _]).
      assert (Hmem : In (f out0) (map g (allPoints polys))).
      { now apply (point_in_allPoints poly0). }
      assert (Hup : f out0 <= init).
      { apply in_map_iff in Hmem. destruct Hmem as (p & <- & Hp). now apply Hinit. }
      assert (Hlo : m <= f out0) by now apply Hlow.
      replace m with (f out0) by lia. exact Hmem.
    + apply in_map_iff in Hin. destruct Hin as (out & <- & Hout).
      apply (Permutation_in _ (Permutation_sym arrival_perm)) in Hout.
      destruct (Forall2_In_r _ _ _ _ Hloc Hout) as (poly & Hpoly & [Hmem _]).
      now apply (point_in_allPoints poly).
  - apply Forall_forall. intros x Hx.
    apply in_map_iff in Hx. destruct Hx as (p & <- & Hp).
    unfold allPoints in Hp. apply in_flat_map in Hp. destruct Hp as (poly & Hpoly & Hp).
    destruct (Forall2_In_l _ _ _ _ Hloc Hpoly) as (out & Hout & [_ Hmin]).
    rewrite Forall_forall in Hmin.
    specialize (Hmin (g p) (in_map g _ _ Hp)). specialize (Hlow out Hout). lia.
Qed.

Lemma global_max :
  Forall2 (fun poly out => is_max (f out) (map g (Points poly))) polys outcomes ->
  (forall p, In p (allPoints polys) -> init <= g p) ->
  is_max (fold_left Z.max (map f arrival) init) (map g (allPoints polys)).
Proof.
  intros Hloc Hinit.
  destruct (fold_max_is_max (map f arrival) init) as [Hin Hle].
  set (m := fold_left Z.max (map f arrival) init) in *.
  rewrite Forall_forall in Hle.
  assert (Hhigh : forall out, In out outcomes -> f out <= m).
  { intros out Hout. apply Hle. right. apply in_map.
    now apply (Permutation_in _ arrival_perm). }
  split.
  - destruct Hin as [Hin | Hin].
    + destruct (first_outcome _ Hloc) as (poly0 & out0 & Hpoly0 & Hout0 & [Hin0 _]).
      assert (Hmem : In (f out0) (map g (allPoints polys))).
      { now apply (point_in_allPoints poly0). }
      assert (Hdown : init <= f out0).
      { apply in_map_iff in Hmem. destruct Hmem as (p & <- & Hp). now apply Hinit. }
      assert (Hhi : f out0 <= m) by now apply Hhigh.
      replace m with (f out0) by lia. exact Hmem.
    + apply in_map_iff in Hin. destruct Hin as (out & <- & Hout).
      apply (Permutation_in _ (Permutation_sym arrival_perm)) in Hout.
      destruct (Forall2_In_r _ _ _ _ Hloc Hout) as (poly & Hpoly & [Hmem _]).
      now apply (point_in_allPoints poly).
  - apply Forall_forall. intros x Hx.
    apply in_map_iff in Hx. destruct Hx as (p & <- & Hp).
    unfold allPoints in Hp. apply in_flat_map in Hp. destruct Hp as (poly & Hpoly & Hp).
    destruct (Forall2_In_l _ _ _ _ Hloc Hpoly) as (out & Hout & [_ Hmax]).
    rewrite Forall_forall in Hmax.
    specialize (Hmax (g p) (in_map g _ _ Hp)). specialize (Hhigh out Hout). lia.
Qed.
End GlobalExtremes.

Lemma reducedFrom_extremes (poly : Polygon) (out : PolygonResult) :
  Points poly <> [] ->
  reducedFrom poly out ->
  is_min (X1 (localBbox out)) (map pX (Points poly)) /\
  is_min (Y1 (localBbox out)) (map pY (Points poly)) /\
  is_max (X2 (localBbox out)) (map pX (Points poly)) /\
  is_max (Y2 (localBbox out)) (map pY (Points poly)).
Proof.
  intros Hne (Herr & ctx & ->).
  destruct (processPolygon_cases poly ctx)
    as [(Hp & Hr) | [(k & e & Hc & Hr) | (p0 & rest & Hp & Hn & Hr)]].
  - contradiction.
  - rewrite Hr in Herr. discriminate.
  - rewrite Hr, Hp. cbn [localBbox]. apply localBbox_extremes.
Qed.

Lemma Forall2_refine {A B : Type} (P : A -> Prop) (R Q : A -> B -> Prop)
      (l1 : list A) (l2 : list B) :
  (forall a b, P a -> R a b -> Q a b) ->
  Forall P l1 -> Forall2 R l1 l2 -> Forall2 Q l1 l2.
Proof.
  intros HQ HP HR. induction HR as [|a b l1 l2 Hab _ IH]; [constructor|].
  inversion HP; subst. constructor; auto.
Qed.

Lemma errors_all_ok (l : list PolygonResult) :
  Forall (fun pr => err pr = None) l -> errors l = [].
Proof.
  induction 1 as [|pr l He _ IH]; [reflexivity|].
  now rewrite (errors_cons_ok _ _ He).
Qed.

Lemma countOk_all (l : list PolygonResult) :
  Forall (fun pr => err pr = None) l -> countOk l = Z.of_nat (length l).
Proof. intros H. unfold countOk. now rewrite (successes_all _ H). Qed.

(** When every outcome read is a success and there are [total] of them,
    the Result is sent at the last one. *)
Lemma collectResults_all_ok (ctxErr : option error) (arrival : list PolygonResult) :
  arrival <> [] ->
  Forall (fun pr => err pr = None) arrival ->
  collectResults ctxErr arrival (Z.of_nat (length arrival)) =
  ([Send (result (fold_left absorb arrival initCollector))], []).
Proof.
  intros Hne Hok.
  destruct (exists_last Hne) as (pre & last & Heq).
  pose proof Hok as Hok'. rewrite Heq in Hok'. apply Forall_app in Hok'.
  destruct Hok' as [Hpre Hlast]. inversion Hlast as [|? ? Hl _]; subst.
  unfold collectResults.
  rewrite (rangeResults_reaches ctxErr _ last [] pre initCollector Hl).
  - rewrite (errors_all_ok _ Hpre), consume_result, (successes_all _ Hok). reflexivity.
  - cbn [processed initCollector]. rewrite (countOk_all _ Hpre), length_app.
    cbn [length]. lia.
Qed.

(** C1: when the polygons are at least one, each has at least one point
    (with coordinates that are values of [int]) and each is reduced without
    error, [collectResults] delivers a Result whose box has, as X1 and Y1,
    the least x and the least y and, as X2 and Y2, the greatest x and the
    greatest y over every point of every polygon; the box is the same for
    every order in which the outcomes arrive. *)
Theorem collectResults_global_bbox
        (ctxErr : option error) (polys : list Polygon) (outcomes : list PolygonResult) :
  polys <> [] ->
  Forall (fun poly => Points poly <> []) polys ->
  Forall pointInRange (allPoints polys) ->
  Forall2 reducedFrom polys outcomes ->
  exists bbox,
    is_min (X1 bbox) (map pX (allPoints polys)) /\
    is_min (Y1 bbox) (map pY (allPoints polys)) /\
    is_max (X2 bbox) (map pX (allPoints polys)) /\
    is_max (Y2 bbox) (map pY (allPoints polys)) /\
    forall arrival,
      Permutation outcomes arrival ->
      exists r,
        collectResults ctxErr arrival (Z.of_nat (length polys)) = ([Send r], []) /\
        ResBbox r = bbox.
Proof.
  intros Hne Hpts Hrange Hred.
  assert (Hext : Forall2 (fun poly out =>
                            is_min (X1 (localBbox out)) (map pX (Points poly)) /\
                            is_min (Y1 (localBbox out)) (map pY (Points poly)) /\
                            is_max (X2 (localBbox out)) (map pX (Points poly)) /\
                            is_max (Y2 (localBbox out)) (map pY (Points poly)))
                         polys outcomes).
  { apply (Forall2_refine _ _ _ _ _ reducedFrom_extremes Hpts Hred). }
  assert (Hok : Forall (fun pr => err pr = None) outcomes).
  { apply Forall_forall. intros out Hout.
    destruct (Forall2_In_r _ _ _ _ Hred Hout) as (poly & _ & Herr & _). exact Herr. }
  rewrite Forall_forall in Hrange.
  assert (Hbox : forall arrival,
             Permutation outcomes arrival ->
             let b := ResBbox (result (fold_left absorb arrival initCollector)) in
             is_min (X1 b) (map pX (allPoints polys)) /\
             is_min (Y1 b) (map pY (allPoints polys)) /\
             is_max (X2 b) (map pX (allPoints polys)) /\
             is_max (Y2 b) (map pY (allPoints polys))).
  { intros arrival Hperm b. subst b.
    rewrite fold_absorb_X1, fold_absorb_Y1, fold_absorb_X2, fold_absorb_Y2.
    cbn [initCollector initResult result ResBbox X1 Y1 X2 Y2].
    split; [|split; [|split]].
    - apply (global_min _ pX polys outcomes arrival _ Hne Hperm).
      + eapply Forall2_impl; [|exact Hext]. intros a b0 H. exact (proj1 H).
      + intros p Hp. apply (Hrange p Hp).
    - apply (global_min _ pY polys outcomes arrival _ Hne Hperm).
      + eapply Forall2_impl; [|exact Hext]. intros a b0 H. exact (proj1 (proj2 H)).
      + intros p Hp. apply (Hrange p Hp).
    - apply (global_max _ pX polys outcomes arrival _ Hne Hperm).
      + eapply Forall2_impl; [|exact Hext]. intros a b0 H. exact (proj1 (proj2 (proj2 H))).
      + intros p Hp. apply (Hrange p Hp).
    - apply (global_max _ pY polys outcomes arrival _ Hne Hperm).
      + eapply Forall2_impl; [|exact Hext]. intros a b0 H. exact (proj2 (proj2 (proj2 H))).
      + intros p Hp. apply (Hrange p Hp). }
  exists (ResBbox (result (fold_left absorb outcomes initCollector))).
  destruct (Hbox outcomes (Permutation_refl _)) as (Hx1 & Hy1 & Hx2 & Hy2).
  split; [exact Hx1|]. split; [exact Hy1|]. split; [exact Hx2|]. split; [exact Hy2|].
  intros arrival Hperm.
  exists (result (fold_left absorb arrival initCollector)).
  assert (Hlen : length polys = length arrival).
  { rewrite (Forall2_length Hred). now apply Permutation_length. }
  split.
  - rewrite Hlen. apply collectResults_all_ok.
    + intros ->. destruct polys; [contradiction | discriminate].
    + exact (Permutation_Forall Hperm Hok).
  - destruct (Hbox arrival Hperm) as (Hx1' & Hy1' & Hx2' & Hy2').
    pose proof (is_min_unique _ _ _ Hx1' Hx1) as E1.
    pose proof (is_min_unique _ _ _ Hy1' Hy1) as E2.
    pose proof (is_max_unique _ _ _ Hx2' Hx2) as E3.
    pose proof (is_max_unique _ _ _ Hy2' Hy2) as E4.
    destruct (ResBbox (result (fold_left absorb arrival initCollector))).
    destruct (ResBbox (result (fold_left absorb outcomes initCollector))).
    cbn [X1 Y1 X2 Y2] in *. congruence.
Qed.

Lemma collectResults_global_bbox_witness :
  exists bbox,
    is_min (X1 bbox) (map pX (allPoints [square; readme_polygon])) /\
    is_min (Y1 bbox) (map pY (allPoints [square; readme_polygon])) /\
    is_max (X2 bbox) (map pX (allPoints [square; readme_polygon])) /\
    is_max (Y2 bbox) (map pY (allPoints [square; readme_polygon])) /\
    forall arrival,
      Permutation [processPolygon square background;
                   processPolygon readme_polygon (firedFrom 7 Canceled)] arrival ->
      exists r,
        collectResults None arrival 2 = ([Send r], []) /\ ResBbox r = bbox.
Proof.
  apply (collectResults_global_bbox None [square; readme_polygon]
           [processPolygon square background;
            processPolygon readme_polygon (firedFrom 7 Canceled)]).
  - discriminate.
  - repeat constructor; discriminate.
  - unfold pointInRange, int_range, math.MinInt, math.MaxInt.
    repeat constructor; cbn; lia.
  - constructor; [|constructor; [|constructor]].
    + split; [reflexivity | now exists background].
    + split; [reflexivity | now exists (firedFrom 7 Canceled)].
Defined.

(** ** Where the code departs from the specification *)

(** C2 at a failing input: one polygon with a single point of weight -5.
    The sum of its weights is -5, the greatest (and only) polygon weight,
    yet the Result delivered has [max_weight] 0, the value [MaxWeight] is
    initialised with. *)
Theorem max_weight_of_negative_polygon :
  sumWeights (Points negative_polygon) = F32.of_Z (-5) /\
  processPolygon negative_polygon background =
  mkPolygonResult (mkBbox 1 2 1 2) (F32.of_Z (-5)) false (Some negative_polygon) None /\
  collectResults None [processPolygon negative_polygon background] 1 =
  ([Send (mkResult (mkBbox 1 2 1 2) (F32.of_Z 0) [])], []) /\
  SFcompare (F32.of_Z (-5)) (F32.of_Z 0) = Some Lt /\
  F32.of_Z 0 <> F32.of_Z (-5).
Proof.
  repeat split; try (vm_compute; reflexivity).
  vm_compute. discriminate.
Qed.

(** C3 at a failing input: the outcome of an empty polygon has weight 0 and
    is not heavy, but its local box is the zero box, which is not neutral
    for the union: after a polygon whose only point is (5, 7), reading the
    outcome of an empty polygon moves the global box from (5, 7, 5, 7) to
    (0, 0, 5, 7). *)
Theorem empty_polygon_moves_global_bbox :
  processPolygon empty_polygon background =
  mkPolygonResult zeroBbox (F32.of_Z 0) false (Some empty_polygon) None /\
  collectResults None [processPolygon far_polygon background] 1 =
  ([Send (mkResult (mkBbox 5 7 5 7) (F32.of_Z 1) [])], []) /\
  collectResults None [processPolygon far_polygon background;
                       processPolygon empty_polygon background] 2 =
  ([Send (mkResult (mkBbox 0 0 5 7) (F32.of_Z 1) [])], []) /\
  unionBbox (mkBbox 5 7 5 7) (localBbox (processPolygon empty_polygon background)) <>
  mkBbox 5 7 5 7.
Proof.
  repeat split; try (vm_compute; reflexivity).
  vm_compute. discriminate.
Qed.

(** * Further properties *)

(** ** processPolygon: the local box and the polls of the context *)

Lemma is_min_In_le (m : Z) (l : list Z) (x : Z) : is_min m l -> In x l -> m <= x.
Proof. intros [_ H] Hx. rewrite Forall_forall in H. now apply H. Qed.

Lemma is_max_In_le (m : Z) (l : list Z) (x : Z) : is_max m l -> In x l -> x <= m.
Proof. intros [_ H] Hx. rewrite Forall_forall in H. now apply H. Qed.

Lemma is_min_attained {A : Type} (f : A -> Z) (m : Z) (l : list A) :
  is_min m (map f l) -> exists a, In a l /\ f a = m.
Proof. intros [H _]. apply in_map_iff in H. destruct H as (a & Ha & Hin). now exists a. Qed.

Lemma is_max_attained {A : Type} (f : A -> Z) (m : Z) (l : list A) :
  is_max m (map f l) -> exists a, In a l /\ f a = m.
Proof. intros [H _]. apply in_map_iff in H. destruct H as (a & Ha & Hin). now exists a. Qed.

Lemma processPolygon_contains (poly : Polygon) (ctx : Context) :
  err (processPolygon poly ctx) = None ->
  Forall (inBbox (localBbox (processPolygon poly ctx))) (Points poly).
Proof.
  intros Herr.
  destruct (processPolygon_cases poly ctx)
    as [(Hp & Hr) | [(k & e & Hc & Hr) | (p0 & rest & Hp & Hn & Hr)]].
  - rewrite Hp. constructor.
  - rewrite Hr in Herr. discriminate.
  - rewrite Hr, Hp. cbn [localBbox].
    destruct (localBbox_extremes p0 rest) as (Hx1 & Hy1 & Hx2 & Hy2).
    apply Forall_forall. intros p Hin. unfold inBbox.
    pose proof (is_min_In_le _ _ _ Hx1 (in_map pX _ _ Hin)).
    pose proof (is_min_In_le _ _ _ Hy1 (in_map pY _ _ Hin)).
    pose proof (is_max_In_le _ _ _ Hx2 (in_map pX _ _ Hin)).
    pose proof (is_max_In_le _ _ _ Hy2 (in_map pY _ _ Hin)).
    lia.
Qed.

(** X1: the local box of an outcome without error contains every point of
    the polygon, and when the polygon has a point each of its four sides
    passes through one: it is the smallest box around the points. *)
Theorem processPolygon_bbox_tight (poly : Polygon) (ctx : Context) :
  err (processPolygon poly ctx) = None ->
  Forall (inBbox (localBbox (processPolygon poly ctx))) (Points poly) /\
  (Points poly <> [] ->
   (exists p, In p (Points poly) /\ pX p = X1 (localBbox (processPolygon poly ctx))) /\
   (exists p, In p (Points poly) /\ pY p = Y1 (localBbox (processPolygon poly ctx))) /\
   (exists p, In p (Points poly) /\ pX p = X2 (localBbox (processPolygon poly ctx))) /\
   (exists p, In p (Points poly) /\ pY p = Y2 (localBbox (processPolygon poly ctx)))).
Proof.
  intros Herr. split; [now apply processPolygon_contains|].
  intros Hne.
  destruct (processPolygon_cases poly ctx)
    as [(Hp & Hr) | [(k & e & Hc & Hr) | (p0 & rest & Hp & Hn & Hr)]].
  - contradiction.
  - rewrite Hr in Herr. discriminate.
  - rewrite Hr, Hp. cbn [localBbox].
    destruct (localBbox_extremes p0 rest) as (Hx1 & Hy1 & Hx2 & Hy2).
    repeat split.
    + exact (is_min_attained _ _ _ Hx1).
    + exact (is_min_attained _ _ _ Hy1).
    + exact (is_max_attained _ _ _ Hx2).
    + exact (is_max_attained _ _ _ Hy2).
Qed.

Lemma processPolygon_bbox_tight_witness :
  Forall (inBbox (localBbox (processPolygon square background))) (Points square).
Proof.
  exact (proj1 (processPolygon_bbox_tight square background eq_refl)).
Defined.

Lemma is_min_perm (m : Z) (l l' : list Z) : Permutation l l' -> is_min m l -> is_min m l'.
Proof.
  intros Hp [Hin Hle]. split.
  - exact (Permutation_in _ Hp Hin).
  - exact (Permutation_Forall Hp Hle).
Qed.

Lemma is_max_perm (m : Z) (l l' : list Z) : Permutation l l' -> is_max m l -> is_max m l'.
Proof.
  intros Hp [Hin Hle]. split.
  - exact (Permutation_in _ Hp Hin).
  - exact (Permutation_Forall Hp Hle).
Qed.

(** X2: the local box does not depend on the order of the points: two
    polygons with the same points in different orders, both reduced
    without error, get the same box. *)
Theorem processPolygon_bbox_order_independent
        (poly poly' : Polygon) (ctx ctx' : Context) :
  Permutation (Points poly) (Points poly') ->
  err (processPolygon poly ctx) = None ->
  err (processPolygon poly' ctx') = None ->
  localBbox (processPolygon poly ctx) = localBbox (processPolygon poly' ctx').
Proof.
  intros Hperm Herr Herr'.
  destruct (processPolygon_cases poly ctx)
    as [(Hp & Hr) | [(k & e & Hc & Hr) | (p0 & rest & Hp & Hn & Hr)]];
    [| rewrite Hr in Herr; discriminate |];
    (destruct (processPolygon_cases poly' ctx')
      as [(Hp' & Hr') | [(k' & e' & Hc' & Hr') | (q0 & rest' & Hp' & Hn' & Hr')]];
     [| rewrite Hr' in Herr'; discriminate |]).
  - now rewrite Hr, Hr'.
  - rewrite Hp, Hp' in Hperm. now apply Permutation_nil in Hperm.
  - rewrite Hp, Hp' in Hperm. apply Permutation_sym in Hperm.
    now apply Permutation_nil in Hperm.
  - rewrite Hr, Hr'. cbn [localBbox]. rewrite Hp, Hp'. rewrite Hp, Hp' in Hperm.
    destruct (localBbox_extremes p0 rest) as (Hx1 & Hy1 & Hx2 & Hy2).
    destruct (localBbox_extremes q0 rest') as (Hx1' & Hy1' & Hx2' & Hy2').
    pose proof (is_min_unique _ _ _ (is_min_perm _ _ _ (Permutation_map pX Hperm) Hx1) Hx1').
    pose proof (is_min_unique _ _ _ (is_min_perm _ _ _ (Permutation_map pY Hperm) Hy1) Hy1').
    pose proof (is_max_unique _ _ _ (is_max_perm _ _ _ (Permutation_map pX Hperm) Hx2) Hx2').
    pose proof (is_max_unique _ _ _ (is_max_perm _ _ _ (Permutation_map pY Hperm) Hy2) Hy2').
    destruct (fold_left growBbox (p0 :: rest) _).
    destruct (fold_left growBbox (q0 :: rest') _).
    cbn [X1 Y1 X2 Y2] in *. congruence.
Qed.

Lemma processPolygon_bbox_order_independent_witness :
  localBbox (processPolygon readme_polygon background) =
  localBbox (processPolygon (mkPolygon (rev (Points readme_polygon))) background).
Proof.
  apply processPolygon_bbox_order_independent.
  - apply Permutation_rev.
  - reflexivity.
  - reflexivity.
Defined.

Lemma rangePoints_ext (ctx ctx' : Context) (ps : list WeightedPoint) :
  forall i bbox w,
    (forall k, (k < length ps)%nat -> pollCtx ctx (i + k) = pollCtx ctx' (i + k)) ->
    rangePoints ctx i ps bbox w = rangePoints ctx' i ps bbox w.
Proof.
  induction ps as [|p ps IH]; intros i bbox w H; cbn [rangePoints]; [reflexivity|].
  pose proof (H 0%nat ltac:(cbn; lia)) as H0. rewrite Nat.add_0_r in H0. rewrite <- H0.
  destruct (pollCtx ctx i); [reflexivity|].
  apply IH. intros k Hk.
  replace (S i + k)%nat with (i + S k)%nat by lia. apply H. cbn [length]. lia.
Qed.

Lemma processPolygon_same_polls (poly : Polygon) (ctx ctx' : Context) :
  (forall k, (k < length (Points poly))%nat -> (k mod 1000 = 0)%nat -> ctx k = ctx' k) ->
  processPolygon poly ctx = processPolygon poly ctx'.
Proof.
  intros H. unfold processPolygon. destruct (Points poly) as [|p0 rest] eqn:Hp; [reflexivity|].
  rewrite (rangePoints_ext ctx ctx' (p0 :: rest) 0); [reflexivity|].
  intros k Hk. cbn [Nat.add]. unfold pollCtx.
  destruct (Nat.eqb_spec (k mod 1000) 0) as [Hm | Hm]; [|reflexivity].
  now apply H.
Qed.

(** X3: [processPolygon] looks at the context only at the indices of the
    sequence that are multiples of 1000: two contexts that answer alike at
    those indices give the same outcome, whatever they answer elsewhere. *)
Theorem processPolygon_polls_multiples_of_1000
        (poly : Polygon) (ctx ctx' : Context) :
  (forall k, (k < length (Points poly))%nat -> (k mod 1000 = 0)%nat -> ctx k = ctx' k) ->
  processPolygon poly ctx = processPolygon poly ctx'.
Proof.
  intros Hsame. unfold processPolygon.
  destruct (Points poly) as [|p0 rest] eqn:Hp; [reflexivity|].
  assert (Hloop : forall bbox w,
             rangePoints ctx 0 (p0 :: rest) bbox w = rangePoints ctx' 0 (p0 :: rest) bbox w).
  { intros bbox w. apply rangePoints_ext. intros k Hk. cbn [Nat.add].
    destruct (pollCtx ctx k) as [e|] eqn:Hpoll.
    - apply pollCtx_Some in Hpoll. destruct Hpoll as [Hm Hc].
      symmetry. apply pollCtx_Some. split; [exact Hm|].
      now rewrite <- (Hsame k Hk Hm).
    - symmetry. apply pollCtx_None. intros Hm.
      rewrite <- (Hsame k Hk Hm). exact (proj1 (pollCtx_None ctx k) Hpoll Hm). }
  now rewrite Hloop.
Qed.

Lemma processPolygon_polls_multiples_of_1000_witness :
  processPolygon readme_polygon (firedFrom 1 DeadlineExceeded) =
  processPolygon readme_polygon background.
Proof.
  apply processPolygon_polls_multiples_of_1000.
  intros k Hk Hm. cbn in Hk. rewrite Nat.mod_small in Hm by lia. subst k. reflexivity.
Defined.

(** X4: a polygon of at most 1000 points is polled once, before its first
    point: if the context has not fired then, the reduction runs to its end
    and gives the outcome it gives under a context that never fires, also
    when the deadline passes during the loop. *)
Theorem processPolygon_small_polygon_single_poll (poly : Polygon) (ctx : Context) :
  (length (Points poly) <= 1000)%nat ->
  ctx 0%nat = None ->
  processPolygon poly ctx = processPolygon poly background /\
  err (processPolygon poly ctx) = None.
Proof.
  intros Hlen H0.
  assert (Heq : processPolygon poly ctx = processPolygon poly background).
  { apply processPolygon_same_polls. intros k Hk Hm.
    rewrite Nat.mod_small in Hm by lia. subst k. exact H0. }
  split; [exact Heq|]. rewrite Heq.
  destruct (processPolygon_cases poly background)
    as [(Hp & Hr) | [(k & e & Hc & Hr) | (p0 & rest & Hp & Hn & Hr)]].
  - now rewrite Hr.
  - destruct Hc as (_ & _ & Hc & _). discriminate.
  - now rewrite Hr.
Qed.

Lemma processPolygon_small_polygon_single_poll_witness :
  err (processPolygon (diagonal 1000) (firedFrom 1 DeadlineExceeded)) = None.
Proof.
  refine (proj2 (processPolygon_small_polygon_single_poll
                   (diagonal 1000) (firedFrom 1 DeadlineExceeded) _ eq_refl)).
  unfold diagonal. cbn [Points]. rewrite length_map, length_seq. lia.
Defined.

(** X5: cancellation never alters a result, it only replaces it by an
    error: an outcome without error is the outcome the polygon has under a
    context that never fires. *)
Theorem processPolygon_success_as_uncancelled (poly : Polygon) (ctx : Context) :
  err (processPolygon poly ctx) = None ->
  processPolygon poly ctx = processPolygon poly background.
Proof.
  intros Herr. apply processPolygon_same_polls. intros k Hk Hm.
  destruct (processPolygon_cases poly ctx)
    as [(Hp & Hr) | [(j & e & Hc & Hr) | (p0 & rest & Hp & Hn & Hr)]].
  - rewrite Hp in Hk. cbn in Hk. lia.
  - rewrite Hr in Herr. discriminate.
  - exact (proj1 (pollCtx_None ctx k) (Hn k Hk) Hm).
Qed.

Lemma processPolygon_success_as_uncancelled_witness :
  processPolygon square (firedFrom 3 Canceled) = processPolygon square background.
Proof.
  apply processPolygon_success_as_uncancelled. reflexivity.
Defined.

(** ** collectResults: what the delivered Result holds *)

(** A Result on [resCh] is the last event; it is built from the success
    outcomes read, which are [total] in number. *)
Lemma collectResults_sent_inv
      (ctxErr : option error) (results : list PolygonResult) (total : Z)
      (evs : list event) (unread : list PolygonResult) (r : Result) :
  collectResults ctxErr results total = (evs, unread) ->
  In (Send r) evs ->
  exists consumed,
    results = (consumed ++ unread)%list /\
    r = result (fold_left absorb (successes consumed) initCollector) /\
    countOk consumed = total /\
    evs = (map LogPrintf (errors consumed) ++ [Send r])%list.
Proof.
  intros H Hin. unfold collectResults in H. apply rangeResults_spec in H.
  destruct H as [(pre & last & Hres & Hl & Hp & Hevs) | (Hu & Hevs)].
  - rewrite consume_result in Hevs.
    assert (Hr : r = result (fold_left absorb (successes (pre ++ [last])) initCollector)).
    { rewrite Hevs in Hin. apply in_app_or in Hin. destruct Hin as [Hin | Hin].
      - apply in_map_iff in Hin. destruct Hin as (e & He & _). discriminate.
      - destruct Hin as [Hin | []]. now inversion Hin. }
    exists (pre ++ [last])%list. split; [|split; [|split]].
    + rewrite <- app_assoc. exact Hres.
    + exact Hr.
    + rewrite countOk_app, (countOk_cons_ok _ _ Hl). unfold countOk at 2.
      cbn in *. lia.
    + rewrite errors_app, (errors_cons_ok _ _ Hl). cbn [errors flat_map].
      rewrite app_nil_r, Hr. exact Hevs.
  - exfalso. rewrite Hevs in Hin. apply in_app_or in Hin. destruct Hin as [Hin | Hin].
    + apply in_map_iff in Hin. destruct Hin as (e & He & _). discriminate.
    + unfold afterRange in Hin.
      destruct (processed _ <? total); [|contradiction].
      destruct (processingError _); [destruct Hin as [Hin | []]; discriminate|].
      destruct ctxErr; destruct Hin as [Hin | []]; discriminate.
Qed.

Lemma withinBbox_trans (a b c : Bbox) : withinBbox a b -> withinBbox b c -> withinBbox a c.
Proof. unfold withinBbox. lia. Qed.

Lemma unionBbox_within_l (g l : Bbox) : withinBbox (unionBbox g l) g.
Proof.
  unfold withinBbox, unionBbox. cbn [X1 Y1 X2 Y2].
  rewrite !MinInt_min, !MaxInt_max. lia.
Qed.

Lemma unionBbox_within_r (g l : Bbox) : withinBbox (unionBbox g l) l.
Proof.
  unfold withinBbox, unionBbox. cbn [X1 Y1 X2 Y2].
  rewrite !MinInt_min, !MaxInt_max. lia.
Qed.

(** The global box only grows, and covers the local box of every outcome
    folded into it. *)
Lemma fold_absorb_within (l : list PolygonResult) :
  forall c,
    withinBbox (ResBbox (result (fold_left absorb l c))) (ResBbox (result c)) /\
    forall pr, In pr l ->
               withinBbox (ResBbox (result (fold_left absorb l c))) (localBbox pr).
Proof.
  induction l as [|x l IH]; intros c; cbn [fold_left].
  - split; [unfold withinBbox; lia | intros pr []].
  - destruct (IH (absorb c x)) as [Hg Hl]. split.
    + eapply withinBbox_trans; [exact Hg|]. apply unionBbox_within_l.
    + intros pr [-> | Hin].
      * eapply withinBbox_trans; [exact Hg|]. apply unionBbox_within_r.
      * now apply Hl.
Qed.

(** X6: the box of a delivered Result covers the local box of every success
    outcome read before the delivery, hence every point of every polygon
    reduced into such an outcome, whatever failed outcomes or empty polygons
    the channel also carried and whatever the coordinates. *)
Theorem collectResults_bbox_covers
        (ctxErr : option error) (results : list PolygonResult) (total : Z)
        (evs : list event) (unread : list PolygonResult) (r : Result) :
  collectResults ctxErr results total = (evs, unread) ->
  In (Send r) evs ->
  exists consumed,
    results = (consumed ++ unread)%list /\
    forall pr,
      In pr consumed ->
      err pr = None ->
      withinBbox (ResBbox r) (localBbox pr) /\
      forall poly ctx,
        pr = processPolygon poly ctx -> Forall (inBbox (ResBbox r)) (Points poly).
Proof.
  intros H Hin.
  destruct (collectResults_sent_inv _ _ _ _ _ _ H Hin) as (consumed & Hres & Hr & _ & _).
  exists consumed. split; [exact Hres|].
  intros pr Hpr Herr.
  assert (Hw : withinBbox (ResBbox r) (localBbox pr)).
  { rewrite Hr. apply fold_absorb_within. unfold successes. apply filter_In.
    split; [exact Hpr|]. unfold succeeded. now rewrite Herr. }
  split; [exact Hw|].
  intros poly ctx ->.
  pose proof (processPolygon_contains poly ctx Herr) as Hloc.
  apply Forall_forall. intros p Hp. rewrite Forall_forall in Hloc.
  specialize (Hloc p Hp). unfold inBbox, withinBbox in *. lia.
Qed.

Lemma collectResults_bbox_covers_witness :
  exists consumed,
    [errResult status500; processPolygon far_polygon background;
     processPolygon empty_polygon background; processPolygon square background] =
    (consumed ++ [processPolygon square background])%list /\
    forall pr,
      In pr consumed ->
      err pr = None ->
      withinBbox (mkBbox 0 0 5 7) (localBbox pr) /\
      forall poly ctx,
        pr = processPolygon poly ctx -> Forall (inBbox (mkBbox 0 0 5 7)) (Points poly).
Proof.
  apply (collectResults_bbox_covers None
           [errResult status500; processPolygon far_polygon background;
            processPolygon empty_polygon background; processPolygon square background]
           2 [LogPrintf status500; Send (mkResult (mkBbox 0 0 5 7) (F32.of_Z 1) [])]
           [processPolygon square background]
           (mkResult (mkBbox 0 0 5 7) (F32.of_Z 1) [])).
  - vm_compute. reflexivity.
  - right. left. reflexivity.
Defined.

Lemma appendHeavy_app (hs : list Polygon) (pr : PolygonResult) :
  appendHeavy hs pr = (hs ++ appendHeavy [] pr)%list.
Proof.
  unfold appendHeavy. destruct (isHeavy pr); [|now rewrite app_nil_r].
  destruct (polygon pr); [reflexivity | now rewrite app_nil_r].
Qed.

Lemma fold_absorb_heavy (l : list PolygonResult) :
  forall c, HeavyPolygons (result (fold_left absorb l c)) =
            (HeavyPolygons (result c) ++ heavyOf l)%list.
Proof.
  induction l as [|pr l IH]; intros c; cbn [fold_left heavyOf flat_map].
  - now rewrite app_nil_r.
  - rewrite IH. unfold absorb. cbn [result HeavyPolygons].
    rewrite appendHeavy_app, <- app_assoc. reflexivity.
Qed.

Lemma reduceJob_heavy (job : Polygon * Context) :
  err (reduceJob job) = None ->
  appendHeavy [] (reduceJob job) = if heavyPolygon (fst job) then [fst job] else [].
Proof.
  destruct job as [poly ctx]. unfold reduceJob. cbn [fst snd]. intros Herr.
  destruct (processPolygon_cases poly ctx)
    as [(Hp & Hr) | [(k & e & Hc & Hr) | (p0 & rest & Hp & Hn & Hr)]].
  - rewrite Hr. unfold heavyPolygon. rewrite Hp. reflexivity.
  - rewrite Hr in Herr. discriminate.
  - rewrite Hr. unfold appendHeavy, heavyPolygon. cbn [isHeavy polygon].
    destruct (F32.ge _ _); reflexivity.
Qed.

Lemma heavyOf_jobs (jobs : list (Polygon * Context)) :
  Forall (fun job => err (reduceJob job) = None) jobs ->
  heavyOf (map reduceJob jobs) = filter heavyPolygon (map fst jobs).
Proof.
  induction 1 as [|job jobs Hjob _ IH]; [reflexivity|].
  cbn [map heavyOf flat_map filter]. fold (heavyOf (map reduceJob jobs)).
  rewrite IH, (reduceJob_heavy _ Hjob).
  destruct (heavyPolygon (fst job)); reflexivity.
Qed.

Lemma jobs_all_ok (jobs : list (Polygon * Context)) :
  Forall (fun job => err (reduceJob job) = None) jobs ->
  Forall (fun pr => err pr = None) (map reduceJob jobs).
Proof. intros H. apply Forall_map. exact H. Qed.

(** X7: when every polygon is reduced without error, the list
    [HeavyPolygons] of the Result holds exactly the polygons whose summed
    weight is at least 100, each once, in the order of arrival of their
    outcomes. *)
Theorem collectResults_heavy_list
        (ctxErr : option error) (jobs : list (Polygon * Context)) :
  jobs <> [] ->
  Forall (fun job => err (reduceJob job) = None) jobs ->
  exists r,
    collectResults ctxErr (map reduceJob jobs) (Z.of_nat (length jobs)) = ([Send r], []) /\
    HeavyPolygons r = filter heavyPolygon (map fst jobs).
Proof.
  intros Hne Hok.
  exists (result (fold_left absorb (map reduceJob jobs) initCollector)). split.
  - rewrite <- (length_map reduceJob jobs). apply collectResults_all_ok.
    + destruct jobs; [contradiction | discriminate].
    + now apply jobs_all_ok.
  - rewrite fold_absorb_heavy. cbn [initCollector initResult result HeavyPolygons app].
    now apply heavyOf_jobs.
Qed.

Lemma collectResults_heavy_list_witness :
  exists r,
    collectResults None
      (map reduceJob [(square, background); (far_polygon, background);
                      (readme_polygon, firedFrom 9 Canceled)]) 3 = ([Send r], []) /\
    HeavyPolygons r = [square; readme_polygon].
Proof.
  apply (collectResults_heavy_list None
           [(square, background); (far_polygon, background);
            (readme_polygon, firedFrom 9 Canceled)]).
  - discriminate.
  - repeat constructor.
Defined.

Lemma fold_absorb_empty_jobs (jobs : list (Polygon * Context)) :
  Forall (fun job => Points (fst job) = []) jobs ->
  forall c,
    result c = mkResult zeroBbox (F32.of_Z 0) [] ->
    result (fold_left absorb (map reduceJob jobs) c) = mkResult zeroBbox (F32.of_Z 0) [].
Proof.
  induction 1 as [|job jobs Hjob _ IH]; intros c Hc; cbn [map fold_left]; [exact Hc|].
  apply IH. unfold absorb. cbn [result]. rewrite Hc.
  unfold reduceJob, processPolygon. rewrite Hjob. reflexivity.
Qed.

(** X8: when every one of the polygons, at least one, has no point, the
    Result delivered has the box (0, 0, 0, 0), not the initial box of
    [collectResults], a maximal weight of 0 and no heavy polygon. *)
Theorem collectResults_all_empty
        (ctxErr : option error) (jobs : list (Polygon * Context)) :
  jobs <> [] ->
  Forall (fun job => Points (fst job) = []) jobs ->
  collectResults ctxErr (map reduceJob jobs) (Z.of_nat (length jobs)) =
  ([Send (mkResult zeroBbox (F32.of_Z 0) [])], []).
Proof.
  intros Hne Hempty.
  assert (Hok : Forall (fun pr => err pr = None) (map reduceJob jobs)).
  { apply Forall_map. eapply Forall_impl; [|exact Hempty].
    intros job Hjob. unfold reduceJob, processPolygon. now rewrite Hjob. }
  rewrite <- (length_map reduceJob jobs).
  rewrite collectResults_all_ok; [|destruct jobs; [contradiction | discriminate]|exact Hok].
  destruct jobs as [|job jobs]; [contradiction|].
  inversion Hempty as [|? ? Hjob Hrest]; subst.
  cbn [map fold_left].
  rewrite (fold_absorb_empty_jobs jobs Hrest); [reflexivity|].
  unfold absorb, reduceJob, processPolygon. rewrite Hjob. reflexivity.
Qed.

Lemma collectResults_all_empty_witness :
  collectResults None
    (map reduceJob [(empty_polygon, background); (empty_polygon, fired Canceled)]) 2 =
  ([Send (mkResult zeroBbox (F32.of_Z 0) [])], []).
Proof.
  apply (collectResults_all_empty None
           [(empty_polygon, background); (empty_polygon, fired Canceled)]).
  - discriminate.
  - repeat constructor.
Defined.

(** ** float32: sums are never NaN, comparisons are an order *)

Lemma shr_1_nonneg (mrs : shr_record) : 0 <= shr_m mrs -> 0 <= shr_m (shr_1 mrs).
Proof.
  destruct mrs as [m r s]. cbn [shr_m]. intros Hm.
  destruct m as [|[p|p|]|p]; cbn; lia.
Qed.

Lemma iter_pos_shr_1_nonneg (p : positive) :
  forall mrs, 0 <= shr_m mrs -> 0 <= shr_m (iter_pos shr_1 p mrs).
Proof.
  induction p as [p IH|p IH|]; intros mrs Hm; cbn [iter_pos].
  - apply IH, IH. now apply shr_1_nonneg.
  - now apply IH, IH.
  - now apply shr_1_nonneg.
Qed.

Lemma shr_record_of_loc_m (m : Z) (l : location) : shr_m (shr_record_of_loc m l) = m.
Proof. destruct l as [|[| |]]; reflexivity. Qed.

Lemma shr_fexp_nonneg (m e : Z) (l : location) :
  0 <= m -> 0 <= shr_m (fst (shr_fexp F32.prec F32.emax m e l)).
Proof.
  intros Hm. unfold shr_fexp, shr.
  destruct (fexp F32.prec F32.emax (Zdigits2 m + e) - e) as [|p|p]; cbn [fst].
  - now rewrite shr_record_of_loc_m.
  - apply iter_pos_shr_1_nonneg. now rewrite shr_record_of_loc_m.
  - now rewrite shr_record_of_loc_m.
Qed.

Lemma round_nearest_even_nonneg (mx : Z) (lx : location) :
  0 <= mx -> 0 <= round_nearest_even mx lx.
Proof.
  intros Hm. unfold round_nearest_even.
  destruct lx as [|[| |]]; try lia. destruct (Z.even mx); lia.
Qed.

Lemma binary_round_aux_not_nan (sx : bool) (mx ex : Z) (lx : location) :
  0 <= mx -> isNaN (binary_round_aux F32.prec F32.emax sx mx ex lx) = false.
Proof.
  intros Hm. unfold binary_round_aux.
  pose proof (shr_fexp_nonneg mx ex lx Hm) as H1.
  destruct (shr_fexp F32.prec F32.emax mx ex lx) as [mrs' e']. cbn [fst] in H1.
  pose proof (shr_fexp_nonneg _ e' loc_Exact
                (round_nearest_even_nonneg _ (loc_of_shr_record mrs') H1)) as H2.
  destruct (shr_fexp F32.prec F32.emax _ e' loc_Exact) as [mrs'' e'']. cbn [fst] in H2.
  destruct (shr_m mrs'') as [|p|p].
  - reflexivity.
  - destruct (e'' <=? F32.emax - F32.prec); reflexivity.
  - lia.
Qed.

Lemma binary_normalize_not_nan (m e : Z) (szero : bool) :
  isNaN (binary_normalize F32.prec F32.emax m e szero) = false.
Proof.
  unfold binary_normalize, binary_round.
  destruct m as [|p|p]; [reflexivity| |];
    destruct (shl_align p e _) as [mz ez]; apply binary_round_aux_not_nan; lia.
Qed.

(** Adding a finite number never makes a NaN. *)
Lemma add_finite_not_nan (a w : float32) :
  isNaN a = false -> isFinite w = true -> isNaN (F32.add a w) = false.
Proof.
  intros Ha Hw. unfold F32.add, SFadd.
  destruct a as [sa|sa| |sa ma ea]; try discriminate;
    destruct w as [sw|sw| |sw mw ew]; try discriminate; try reflexivity.
  - destruct sa, sw; reflexivity.
  - apply binary_normalize_not_nan.
Qed.

Lemma fold_add_not_nan (ws : list float32) :
  forall a,
    isNaN a = false ->
    Forall (fun w => isFinite w = true) ws ->
    isNaN (fold_left F32.add ws a) = false.
Proof.
  induction ws as [|w ws IH]; intros a Ha Hws; cbn [fold_left]; [exact Ha|].
  inversion Hws; subst. apply IH; [now apply add_finite_not_nan | assumption].
Qed.

(** X9: the weight of an outcome of [processPolygon] is never a NaN when the
    weights of the points are zeros or finite numbers, which is all a JSON
    number decodes to: the running sum may overflow to an infinity, and an
    infinity plus a finite number stays that infinity. *)
Theorem processPolygon_weight_not_nan (poly : Polygon) (ctx : Context) :
  Forall (fun p => isFinite (Weight p) = true) (Points poly) ->
  isNaN (sumWeights (Points poly)) = false /\
  isNaN (weight (processPolygon poly ctx)) = false.
Proof.
  intros Hfin.
  assert (Hsum : isNaN (sumWeights (Points poly)) = false).
  { unfold sumWeights. apply fold_add_not_nan; [reflexivity|].
    apply Forall_map. exact Hfin. }
  split; [exact Hsum|].
  destruct (processPolygon_cases poly ctx)
    as [(Hp & Hr) | [(k & e & Hc & Hr) | (p0 & rest & Hp & Hn & Hr)]];
    rewrite Hr; try reflexivity. exact Hsum.
Qed.

Lemma processPolygon_weight_not_nan_witness :
  isNaN (weight (processPolygon readme_polygon background)) = false.
Proof.
  refine (proj2 (processPolygon_weight_not_nan readme_polygon background _)).
  repeat constructor.
Defined.

Lemma rank_le_refl (a : Z * Z * Z) : rank_le a a.
Proof. destruct a as [[a1 a2] a3]. unfold rank_le. lia. Qed.

Lemma rank_le_trans (a b c : Z * Z * Z) : rank_le a b -> rank_le b c -> rank_le a c.
Proof.
  destruct a as [[a1 a2] a3], b as [[b1 b2] b3], c as [[c1 c2] c3]. unfold rank_le. lia.
Qed.

Lemma rank_le_total (a b : Z * Z * Z) : rank_le a b \/ rank_le b a.
Proof. destruct a as [[a1 a2] a3], b as [[b1 b2] b3]. unfold rank_le. lia. Qed.

(** On numbers that are not NaN, [>=] is the order of the ranks. *)
Lemma ge_rank (a b : float32) :
  isNaN a = false -> isNaN b = false ->
  (F32.ge a b = true <-> rank_le (rank b) (rank a)).
Proof.
  intros Ha Hb. unfold F32.ge, SFcompare.
  destruct a as [sa|sa| |sa ma ea]; try discriminate;
    destruct b as [sb|sb| |sb mb eb]; try discriminate;
    try (destruct sa); try (destruct sb); cbn [rank rank_le];
    try (split; [intros _; lia | reflexivity]);
    try (split; [discriminate | lia]);
    change (Pos.compare_cont Eq ma mb) with (Pos.compare ma mb);
    destruct (Z.compare_spec ea eb); destruct (Pos.compare_spec ma mb); cbn [CompOpp];
    split; intros H'; try reflexivity; try discriminate; lia.
Qed.

Lemma gt_rank (a b : float32) :
  isNaN a = false -> isNaN b = false ->
  (F32.gt a b = true <-> ~ rank_le (rank a) (rank b)).
Proof.
  intros Ha Hb. unfold F32.gt, SFcompare.
  destruct a as [sa|sa| |sa ma ea]; try discriminate;
    destruct b as [sb|sb| |sb mb eb]; try discriminate;
    try (destruct sa); try (destruct sb); cbn [rank rank_le];
    try (split; [intros _; lia | reflexivity]);
    try (split; [discriminate | lia]);
    change (Pos.compare_cont Eq ma mb) with (Pos.compare ma mb);
    destruct (Z.compare_spec ea eb); destruct (Pos.compare_spec ma mb); cbn [CompOpp];
    split; intros H'; try reflexivity; try discriminate; lia.
Qed.

Lemma rank_le_dec (a b : Z * Z * Z) : rank_le a b \/ ~ rank_le a b.
Proof. destruct a as [[a1 a2] a3], b as [[b1 b2] b3]. unfold rank_le. lia. Qed.

Lemma MaxFloat32_rank (a b : float32) :
  isNaN a = false -> isNaN b = false ->
  isNaN (MaxFloat32 a b) = false /\
  rank_le (rank a) (rank (MaxFloat32 a b)) /\
  rank_le (rank b) (rank (MaxFloat32 a b)) /\
  (MaxFloat32 a b = a \/ MaxFloat32 a b = b).
Proof.
  intros Ha Hb. unfold MaxFloat32.
  pose proof (gt_rank a b Ha Hb) as Hgt.
  destruct (F32.gt a b).
  - repeat split; [exact Ha | apply rank_le_refl | | now left].
    destruct (rank_le_total (rank a) (rank b)) as [H | H]; [|exact H].
    exfalso. now apply (proj1 Hgt).
  - repeat split; [exact Hb | | apply rank_le_refl | now right].
    destruct (rank_le_dec (rank a) (rank b)) as [H | H]; [exact H|].
    apply Hgt in H. discriminate.
Qed.

Lemma fold_MaxFloat32_rank (ws : list float32) :
  forall m0,
    isNaN m0 = false ->
    Forall (fun w => isNaN w = false) ws ->
    isNaN (fold_left MaxFloat32 ws m0) = false /\
    rank_le (rank m0) (rank (fold_left MaxFloat32 ws m0)) /\
    Forall (fun w => rank_le (rank w) (rank (fold_left MaxFloat32 ws m0))) ws /\
    (fold_left MaxFloat32 ws m0 = m0 \/ In (fold_left MaxFloat32 ws m0) ws).
Proof.
  induction ws as [|w ws IH]; intros m0 Hm0 Hws; cbn [fold_left].
  - repeat split; [exact Hm0 | apply rank_le_refl | constructor | now left].
  - inversion Hws as [|? ? Hw Hws']; subst.
    destruct (MaxFloat32_rank m0 w Hm0 Hw) as (Hn & Hle0 & Hlew & Hsel).
    destruct (IH _ Hn Hws') as (Hn' & Hle & Hall & Hin).
    repeat split.
    + exact Hn'.
    + exact (rank_le_trans _ _ _ Hle0 Hle).
    + constructor; [exact (rank_le_trans _ _ _ Hlew Hle) | exact Hall].
    + destruct Hin as [Heq | Hin]; [|now right; right].
      rewrite Heq. destruct Hsel as [-> | ->]; [now left | now right; left].
Qed.

Lemma fold_absorb_MaxWeight (l : list PolygonResult) :
  forall c, MaxWeight (result (fold_left absorb l c)) =
            fold_left MaxFloat32 (map weight l) (MaxWeight (result c)).
Proof.
  induction l as [|pr l IH]; intros c; cbn [fold_left map]; [reflexivity|].
  rewrite IH. reflexivity.
Qed.

(** X10: when no weight read is a NaN, the [max_weight] of a delivered
    Result is not a NaN, is at least 0 and at least the weight of every
    success outcome read, and is 0 or the weight of one of these outcomes:
    it is the greatest of 0 and the weights, so the greatest weight as soon
    as one polygon weighs 0 or more. *)
Theorem collectResults_max_weight
        (ctxErr : option error) (results : list PolygonResult) (total : Z)
        (evs : list event) (unread : list PolygonResult) (r : Result) :
  collectResults ctxErr results total = (evs, unread) ->
  In (Send r) evs ->
  Forall (fun pr => isNaN (weight pr) = false) results ->
  isNaN (MaxWeight r) = false /\
  F32.ge (MaxWeight r) (F32.of_Z 0) = true /\
  exists consumed,
    results = (consumed ++ unread)%list /\
    (forall pr, In pr consumed -> err pr = None ->
                F32.ge (MaxWeight r) (weight pr) = true) /\
    (MaxWeight r = F32.of_Z 0 \/
     exists pr, In pr consumed /\ err pr = None /\ MaxWeight r = weight pr).
Proof.
  intros H Hin Hnan.
  destruct (collectResults_sent_inv _ _ _ _ _ _ H Hin) as (consumed & Hres & Hr & _ & _).
  assert (Hws : Forall (fun w => isNaN w = false) (map weight (successes consumed))).
  { apply Forall_map. apply Forall_forall. intros pr Hpr.
    unfold successes in Hpr. apply filter_In in Hpr. destruct Hpr as [Hpr _].
    rewrite Forall_forall in Hnan. apply Hnan. rewrite Hres. apply in_or_app. now left. }
  assert (Hmax : MaxWeight r =
                 fold_left MaxFloat32 (map weight (successes consumed)) (F32.of_Z 0)).
  { rewrite Hr, fold_absorb_MaxWeight. reflexivity. }
  destruct (fold_MaxFloat32_rank _ (F32.of_Z 0) eq_refl Hws) as (Hn & Hle & Hall & Hsel).
  rewrite <- Hmax in Hn, Hle, Hall, Hsel.
  split; [exact Hn|]. split; [now apply ge_rank|].
  exists consumed. split; [exact Hres|]. split.
  - intros pr Hpr Herr.
    assert (Hs : In pr (successes consumed)).
    { unfold successes. apply filter_In. split; [exact Hpr|].
      unfold succeeded. now rewrite Herr. }
    rewrite Forall_forall in Hall, Hws.
    apply ge_rank; [exact Hn | apply (Hws _ (in_map weight _ _ Hs)) |].
    apply Hall. now apply in_map.
  - destruct Hsel as [Heq | Hsel]; [now left|]. right.
    apply in_map_iff in Hsel. destruct Hsel as (pr & Hw & Hpr).
    unfold successes in Hpr. apply filter_In in Hpr. destruct Hpr as [Hpr Hs].
    exists pr. repeat split; [exact Hpr | | now symmetry].
    unfold succeeded in Hs. destruct (err pr); [discriminate | reflexivity].
Qed.

Lemma collectResults_max_weight_witness :
  F32.ge (F32.of_Z 120) (F32.of_Z 0) = true /\
  exists consumed,
    [processPolygon readme_polygon background; processPolygon negative_polygon background;
     processPolygon square background] = (consumed ++ [])%list /\
    (forall pr, In pr consumed -> err pr = None ->
                F32.ge (F32.of_Z 120) (weight pr) = true) /\
    (F32.of_Z 120 = F32.of_Z 0 \/
     exists pr, In pr consumed /\ err pr = None /\ F32.of_Z 120 = weight pr).
Proof.
  refine (proj2 (collectResults_max_weight None
           [processPolygon readme_polygon background;
            processPolygon negative_polygon background;
            processPolygon square background] 3
           [Send (mkResult (mkBbox 0 0 10 10) (F32.of_Z 120) [readme_polygon; square])] []
           (mkResult (mkBbox 0 0 10 10) (F32.of_Z 120) [readme_polygon; square]) _ _ _)).
  - vm_compute. reflexivity.
  - left. reflexivity.
  - repeat constructor.
Defined.

(** ** collectResults: how a run ends *)

Lemma countOk_split (l : list PolygonResult) :
  forall n,
    0 <= n < countOk l ->
    exists pre last rest,
      l = (pre ++ last :: rest)%list /\ err last = None /\ countOk pre = n.
Proof.
  induction l as [|pr l IH]; intros n Hn.
  - unfold countOk in Hn. cbn in Hn. lia.
  - destruct (err pr) as [e|] eqn:He.
    + rewrite (countOk_cons_err _ _ _ He) in Hn.
      destruct (IH n Hn) as (pre & last & rest & Hl & Hlast & Hpre).
      exists (pr :: pre), last, rest. repeat split.
      * now rewrite Hl.
      * exact Hlast.
      * now rewrite (countOk_cons_err _ _ _ He).
    + rewrite (countOk_cons_ok _ _ He) in Hn.
      destruct (Z.eq_dec n 0) as [-> | Hnz].
      * exists [], pr, l. split; [reflexivity|]. split; [exact He | reflexivity].
      * destruct (IH (n - 1) ltac:(lia)) as (pre & last & rest & Hl & Hlast & Hpre).
        exists (pr :: pre), last, rest. repeat split.
        -- now rewrite Hl.
        -- exact Hlast.
        -- rewrite (countOk_cons_ok _ _ He). lia.
Qed.

Lemma collectResults_enough (ctxErr : option error) (results : list PolygonResult)
      (total : Z) :
  1 <= total <= countOk results ->
  exists r, In (Send r) (fst (collectResults ctxErr results total)).
Proof.
  intros Ht.
  destruct (countOk_split results (total - 1) ltac:(lia))
    as (pre & last & rest & Hl & Hlast & Hpre).
  unfold collectResults. rewrite Hl.
  rewrite (rangeResults_reaches ctxErr total last rest pre initCollector Hlast)
    by (cbn [processed initCollector]; lia).
  eexists. cbn [fst]. apply in_or_app. right. left. reflexivity.
Qed.

Lemma collectResults_not_positive (ctxErr : option error) (results : list PolygonResult)
      (total : Z) :
  total <= 0 ->
  collectResults ctxErr results total = (map LogPrintf (errors results), []).
Proof.
  intros Ht. unfold collectResults.
  rewrite rangeResults_drained by (right; cbn [processed initCollector]; lia).
  unfold afterRange. rewrite consume_processed.
  pose proof (countOk_nonneg results) as Hn.
  destruct (Z.ltb_spec (processed initCollector + countOk results) total) as [Hlt | Hge].
  - cbn [processed initCollector] in Hlt. lia.
  - now rewrite app_nil_r.
Qed.

Lemma Send_in_sent (evs : list event) (r : Result) : In (Send r) evs -> In r (sent evs).
Proof.
  intros H. unfold sent. apply in_flat_map. exists (Send r). split; [exact H | now left].
Qed.

Lemma collectResults_sent_needs (ctxErr : option error) (results : list PolygonResult)
      (total : Z) (r : Result) :
  In (Send r) (fst (collectResults ctxErr results total)) ->
  1 <= total <= countOk results.
Proof.
  intros Hin.
  destruct (Z.le_gt_cases total 0) as [Hle | Hgt].
  - exfalso. rewrite (collectResults_not_positive _ _ _ Hle) in Hin.
    cbn [fst] in Hin. apply Send_in_sent in Hin. now rewrite sent_logs in Hin.
  - destruct (collectResults ctxErr results total) as [evs unread] eqn:H.
    cbn [fst] in Hin.
    destruct (collectResults_sent_inv _ _ _ _ _ _ H Hin) as (consumed & Hres & _ & Hc & _).
    rewrite Hres, countOk_app. pose proof (countOk_nonneg unread). lia.
Qed.

(** X11: [collectResults] delivers a Result exactly when the expected total
    is at least 1 and the channel carries at least that many success
    outcomes before it closes; failed outcomes in between do not prevent
    the delivery. *)
Theorem collectResults_delivers_iff
        (ctxErr : option error) (results : list PolygonResult) (total : Z) :
  (exists r, In (Send r) (fst (collectResults ctxErr results total))) <->
  1 <= total <= countOk results.
Proof.
  split.
  - intros (r & Hin). exact (collectResults_sent_needs _ _ _ _ Hin).
  - apply collectResults_enough.
Qed.

Lemma collectResults_delivers_iff_witness :
  (exists r, In (Send r)
               (fst (collectResults None
                       [errResult status500; processPolygon square background;
                        processPolygon far_polygon background] 2))) /\
  ~ (exists r, In (Send r)
                  (fst (collectResults None
                          [errResult status500; processPolygon square background;
                           processPolygon far_polygon background] 3))).
Proof.
  split.
  - apply (proj2 (collectResults_delivers_iff None _ 2)). vm_compute. split; discriminate.
  - intros H. apply (proj1 (collectResults_delivers_iff None _ 3)) in H.
    vm_compute in H. destruct H as [_ H]. now apply H.
Defined.

Lemma logged_logs (es : list error) : logged (map LogPrintf es) = es.
Proof. induction es as [|e es IH]; [reflexivity|]. cbn. now f_equal. Qed.

Lemma logged_app (l1 l2 : list event) : logged (l1 ++ l2) = (logged l1 ++ logged l2)%list.
Proof. unfold logged. apply flat_map_app. Qed.

(** X12: the events of [collectResults] are one [log.Printf] for each failed
    outcome read, in the order read, followed by at most one closing event:
    a Result on [resCh], or a fatal log, which comes only when the channel
    was read to its close; or nothing, which happens only for an expected
    total of 0 or less. A run never both delivers a Result and logs a fatal
    failure, and logs nothing after either. *)
Theorem collectResults_event_shape
        (ctxErr : option error) (results : list PolygonResult) (total : Z)
        (evs : list event) (unread : list PolygonResult) :
  collectResults ctxErr results total = (evs, unread) ->
  exists consumed closing,
    results = (consumed ++ unread)%list /\
    evs = (map LogPrintf (errors consumed) ++ closing)%list /\
    logged evs = errors consumed /\
    ((exists r, closing = [Send r]) \/
     (exists f, closing = [LogFatalf f] /\ unread = [] /\ countOk results < total) \/
     (closing = [] /\ unread = [] /\ total <= 0)).
Proof.
  intros H. pose proof H as H'. unfold collectResults in H'.
  apply rangeResults_spec in H'.
  destruct H' as [(pre & last & Hres & Hl & Hp & Hevs) | (Hu & Hevs)].
  - exists (pre ++ [last])%list, [Send (result (fold_left consume (pre ++ [last]) initCollector))].
    assert (He : errors (pre ++ [last]) = errors pre).
    { rewrite errors_app, (errors_cons_ok _ _ Hl). cbn [errors flat_map]. apply app_nil_r. }
    rewrite He. split; [now rewrite <- app_assoc|]. split; [exact Hevs|]. split.
    + rewrite Hevs, logged_app, logged_logs. cbn. apply app_nil_r.
    + left. eexists. reflexivity.
  - subst unread. exists results, (afterRange ctxErr total (fold_left consume results initCollector)).
    split; [now rewrite app_nil_r|]. split; [exact Hevs|].
    unfold afterRange in *. rewrite consume_processed in *.
    cbn [processed initCollector] in *.
    destruct (Z.ltb_spec (0 + countOk results) total) as [Hlt | Hge].
    + assert (Hclosing : exists f,
                 match processingError (fold_left consume results initCollector) with
                 | Some e => [LogFatalf (NotAllProcessed e)]
                 | None =>
                     match ctxErr with
                     | Some e => [LogFatalf (TimeExceeded e)]
                     | None => [LogFatalf (UnknownError (0 + countOk results) total)]
                     end
                 end = [LogFatalf f]).
      { destruct (processingError _); [eexists; reflexivity|].
        destruct ctxErr; eexists; reflexivity. }
      destruct Hclosing as (f & Hf). rewrite Hf in *. split.
      * rewrite Hevs, logged_app, logged_logs. cbn. apply app_nil_r.
      * right. left. exists f. repeat split. lia.
    + split.
      * rewrite Hevs, logged_app, logged_logs. cbn. apply app_nil_r.
      * right. right. repeat split.
        destruct (Z.le_gt_cases total 0) as [Hle | Hgt]; [exact Hle|].
        exfalso.
        destruct (collectResults_enough ctxErr results total ltac:(lia)) as (r & Hin).
        rewrite H in Hin. cbn [fst] in Hin. apply Send_in_sent in Hin.
        rewrite Hevs, sent_app, sent_logs in Hin. exact Hin.
Qed.

Lemma collectResults_event_shape_witness :
  exists consumed closing,
    [errResult status500; processPolygon square background] = (consumed ++ [])%list /\
    [LogPrintf status500; LogFatalf (NotAllProcessed status500)] =
    (map LogPrintf (errors consumed) ++ closing)%list /\
    logged [LogPrintf status500; LogFatalf (NotAllProcessed status500)] = errors consumed /\
    ((exists r, closing = [Send r]) \/
     (exists f, closing = [LogFatalf f] /\ @nil PolygonResult = [] /\
                countOk [errResult status500; processPolygon square background] < 2) \/
     (closing = [] /\ @nil PolygonResult = [] /\ 2 <= 0)).
Proof.
  apply (collectResults_event_shape None
           [errResult status500; processPolygon square background] 2).
  vm_compute. reflexivity.
Defined.

Lemma count_partition (l : list PolygonResult) :
  countOk l + Z.of_nat (length (errors l)) = Z.of_nat (length l).
Proof.
  induction l as [|pr l IH]; [reflexivity|].
  destruct (err pr) as [e|] eqn:He.
  - rewrite (countOk_cons_err _ _ _ He), (errors_cons_err _ _ _ He). cbn [length]. lia.
  - rewrite (countOk_cons_ok _ _ He), (errors_cons_ok _ _ He). cbn [length]. lia.
Qed.

(** X13: when the channel carries no more outcomes than the expected total,
    as it does when every index gives at most one outcome, a single failed
    outcome fails the run: no Result is delivered, each error is logged, and
    the fatal log names the error of the last failed outcome. *)
Theorem collectResults_one_failure_fails_run
        (ctxErr : option error) (results : list PolygonResult) (total : Z) :
  Z.of_nat (length results) <= total ->
  errors results <> [] ->
  exists e,
    hd_error (rev (errors results)) = Some e /\
    collectResults ctxErr results total =
    ((map LogPrintf (errors results) ++ [LogFatalf (NotAllProcessed e)])%list, []) /\
    sent (fst (collectResults ctxErr results total)) = [].
Proof.
  intros Hlen Herr.
  assert (Hlt : countOk results < total).
  { pose proof (count_partition results).
    destruct (errors results); [contradiction | cbn [length] in *; lia]. }
  assert (Hrev : exists e es, rev (errors results) = e :: es).
  { destruct (rev (errors results)) as [|e es] eqn:Hr; [|now exists e, es].
    apply (f_equal (@rev error)) in Hr. rewrite rev_involutive in Hr. contradiction. }
  destruct Hrev as (e & es & Hrev). exists e.
  assert (H : collectResults ctxErr results total =
              ((map LogPrintf (errors results) ++ [LogFatalf (NotAllProcessed e)])%list, [])).
  { unfold collectResults.
    rewrite rangeResults_drained by (left; cbn [processed initCollector]; lia).
    unfold afterRange. rewrite consume_processed, consume_processingError, Hrev.
    destruct (Z.ltb_spec (processed initCollector + countOk results) total) as [_ | Hge];
      [reflexivity | cbn [processed initCollector] in Hge; lia]. }
  split; [now rewrite Hrev|]. split; [exact H|].
  rewrite H. cbn [fst]. rewrite sent_app, sent_logs. reflexivity.
Qed.

Lemma collectResults_one_failure_fails_run_witness :
  exists e,
    hd_error (rev (errors [processPolygon square background; errResult status500;
                           processPolygon far_polygon background])) = Some e /\
    collectResults None [processPolygon square background; errResult status500;
                         processPolygon far_polygon background] 3 =
    ((map LogPrintf (errors [processPolygon square background; errResult status500;
                             processPolygon far_polygon background]) ++
      [LogFatalf (NotAllProcessed e)])%list, []) /\
    sent (fst (collectResults None [processPolygon square background; errResult status500;
                                    processPolygon far_polygon background] 3)) = [].
Proof.
  apply collectResults_one_failure_fails_run.
  - cbn. lia.
  - discriminate.
Defined.

(** ** fetchAndProcessPolygon *)

Lemma processPolygon_shape (poly : Polygon) (ctx : Context) :
  (err (processPolygon poly ctx) = None /\ polygon (processPolygon poly ctx) = Some poly) \/
  (exists e, processPolygon poly ctx = errResult e).
Proof.
  destruct (processPolygon_cases poly ctx)
    as [(Hp & Hr) | [(k & e & Hc & Hr) | (p0 & rest & Hp & Hn & Hr)]].
  - left. now rewrite Hr.
  - right. now exists e.
  - left. now rewrite Hr.
Qed.

Section FetchProperties.
Variable Unmarshal : string -> string + Polygon.

(** X14: the outcome of [fetchAndProcessPolygon] is without error exactly
    when the request is built, [client.Do] returns a response, its status is
    200, its body is read and decodes to a polygon, and the reduction of
    that polygon is not cancelled; the outcome is then that of
    [processPolygon] on the decoded polygon. A status other than 200 gives
    an error outcome whatever the body holds. *)
Theorem fetchAndProcessPolygon_success_iff (net : exchange) (ctx : Context) (idx : Z) :
  err (fetchAndProcessPolygon Unmarshal net ctx idx) = None <->
  exists resp respBody poly,
    NewRequestWithContext net = None /\
    Do net = inr resp /\
    StatusCode resp = 200 /\
    ReadAll resp = inr respBody /\
    Unmarshal respBody = inr poly /\
    err (processPolygon poly ctx) = None /\
    fetchAndProcessPolygon Unmarshal net ctx idx = processPolygon poly ctx.
Proof.
  unfold fetchAndProcessPolygon. split.
  - intros H.
    destruct (NewRequestWithContext net) as [e|] eqn:Hn; [discriminate|].
    destruct (Do net) as [e|resp] eqn:Hd; [discriminate|].
    destruct (Z.eqb_spec (StatusCode resp) StatusOK) as [Hs | Hs]; [|discriminate].
    cbn [negb] in *.
    destruct (ReadAll resp) as [e|respBody] eqn:Hr; [discriminate|].
    destruct (Unmarshal respBody) as [e|poly] eqn:Hu; [discriminate|].
    exists resp, respBody, poly. repeat split; try reflexivity; assumption.
  - intros (resp & respBody & poly & Hn & Hd & Hs & Hr & Hu & Herr & _).
    rewrite Hn, Hd, Hs, Hr, Hu. exact Herr.
Qed.

(** X15: an outcome of [fetchAndProcessPolygon] has exactly one of its two
    shapes: either no error and the decoded polygon, or an error with no
    polygon, the zero box, weight 0 and the heavy flag unset. *)
Theorem fetchAndProcessPolygon_one_shape (net : exchange) (ctx : Context) (idx : Z) :
  (err (fetchAndProcessPolygon Unmarshal net ctx idx) = None /\
   exists poly, polygon (fetchAndProcessPolygon Unmarshal net ctx idx) = Some poly) \/
  (exists e,
      fetchAndProcessPolygon Unmarshal net ctx idx = errResult e /\
      err (fetchAndProcessPolygon Unmarshal net ctx idx) = Some e /\
      polygon (fetchAndProcessPolygon Unmarshal net ctx idx) = None /\
      localBbox (fetchAndProcessPolygon Unmarshal net ctx idx) = zeroBbox /\
      weight (fetchAndProcessPolygon Unmarshal net ctx idx) = F32.of_Z 0 /\
      isHeavy (fetchAndProcessPolygon Unmarshal net ctx idx) = false).
Proof.
  assert (Herr : forall e r, r = errResult e ->
                   exists e', r = errResult e' /\ err r = Some e' /\ polygon r = None /\
                              localBbox r = zeroBbox /\ weight r = F32.of_Z 0 /\
                              isHeavy r = false).
  { intros e r ->. exists e. repeat split. }
  unfold fetchAndProcessPolygon.
  destruct (NewRequestWithContext net) as [e|]; [right; eapply Herr; reflexivity|].
  destruct (Do net) as [e|resp]; [right; eapply Herr; reflexivity|].
  destruct (negb (StatusCode resp =? StatusOK)); [right; eapply Herr; reflexivity|].
  destruct (ReadAll resp) as [e|respBody]; [right; eapply Herr; reflexivity|].
  destruct (Unmarshal respBody) as [e|poly]; [right; eapply Herr; reflexivity|].
  destruct (processPolygon_shape poly ctx) as [[He Hp] | (e & He)].
  - left. split; [exact He | now exists poly].
  - right. eapply Herr. exact He.
Qed.
End FetchProperties.

Lemma fetchAndProcessPolygon_success_iff_witness :
  err (fetchAndProcessPolygon (fun _ => inr square)
         (mkExchange None (inr (mkResponse 500 (inr "{}"%string)))) background 0) <> None.
Proof.
  intros H.
  apply (proj1 (fetchAndProcessPolygon_success_iff (fun _ => inr square) _ background 0)) in H.
  destruct H as (resp & respBody & poly & _ & Hd & Hs & _).
  cbn in Hd. inversion Hd; subst. cbn in Hs. discriminate.
Defined.

(** ** The goroutines of main *)

Lemma feedIndices_spec (takeDone : nat -> bool) (remaining : nat) :
  forall i,
    exists k,
      (k <= remaining)%nat /\
      feedIndices takeDone i remaining = map Z.of_nat (seq i k) /\
      (forall j, (j < k)%nat -> takeDone (i + j)%nat = false) /\
      ((k < remaining)%nat -> takeDone (i + k)%nat = true).
Proof.
  induction remaining as [|n IH]; intros i; cbn [feedIndices].
  - exists 0%nat. split; [lia|]. split; [reflexivity|].
    split; [intros j Hj; lia | intros Hk; lia].
  - destruct (takeDone i) eqn:Hd.
    + exists 0%nat. split; [lia|]. split; [reflexivity|]. split; [intros j Hj; lia|].
      intros _. now rewrite Nat.add_0_r.
    + destruct (IH (S i)) as (k & Hk & Hfeed & Hbefore & Hat).
      exists (S k). split; [lia|]. split; [cbn [seq map]; now rewrite Hfeed|]. split.
      * intros [|j] Hj; [now rewrite Nat.add_0_r|].
        replace (i + S j)%nat with (S i + j)%nat by lia. apply Hbefore. lia.
      * intros Hlt. replace (i + S k)%nat with (S i + k)%nat by lia. apply Hat. lia.
Qed.

Lemma NoDup_map_of_nat (l : list nat) : NoDup l -> NoDup (map Z.of_nat l).
Proof.
  induction 1 as [|a l Hnot _ IH]; cbn [map]; constructor; [|exact IH].
  intros Hin. apply in_map_iff in Hin. destruct Hin as (b & Hb & Hin).
  apply Nat2Z.inj in Hb. now subst.
Qed.


(** X16: the dispatcher sends on [indices] the indices 0, 1, ..., k - 1 for
    some k up to [polygonsNum], in this order and each once, and never more
    than the capacity of the channel. It stops short of [polygonsNum] only
    at an iteration whose select takes the deadline case, and sends nothing
    for a [polygonsNum] of 0 or less. *)
Theorem dispatcher_sends_prefix (takeDone : nat -> bool) (polygonsNum : Z) :
  exists k,
    (k <= Z.to_nat polygonsNum)%nat /\
    dispatcher takeDone polygonsNum = map Z.of_nat (seq 0 k) /\
    (forall j, (j < k)%nat -> takeDone j = false) /\
    ((k < Z.to_nat polygonsNum)%nat -> takeDone k = true) /\
    NoDup (dispatcher takeDone polygonsNum) /\
    (polygonsNum <= 0 -> dispatcher takeDone polygonsNum = []).
Proof.
  unfold dispatcher.
  destruct (feedIndices_spec takeDone (Z.to_nat polygonsNum) 0) as (k & Hk & Hfeed & Hb & Hat).
  exists k. split; [exact Hk|]. split; [exact Hfeed|]. split; [exact Hb|].
  split; [exact Hat|]. split.
  - rewrite Hfeed. apply NoDup_map_of_nat, seq_NoDup.
  - intros Hle. replace (Z.to_nat polygonsNum) with 0%nat by lia. reflexivity.
Qed.

Lemma dispatcher_sends_prefix_witness :
  dispatcher (fun i => (2 <=? i)%nat) 5 = [0; 1] /\
  dispatcher neverDone 3 = [0; 1; 2] /\
  dispatcher neverDone (-4) = [].
Proof.
  split; [reflexivity|]. split; [reflexivity|].
  destruct (dispatcher_sends_prefix neverDone (-4)) as (k & _ & _ & _ & _ & _ & H).
  apply H. lia.
Defined.

Lemma worker_spec (fetch : Z -> PolygonResult) (sel : workerSelects)
      (received : list Z) :
  forall n,
    exists k,
      (k <= length received)%nat /\
      worker fetch sel n received = map fetch (firstn k received) /\
      (forall j, (j < k)%nat ->
                 doneOnTake sel (n + j)%nat = false /\ doneOnSend sel (n + j)%nat = false) /\
      ((k < length received)%nat ->
       doneOnTake sel (n + k)%nat = true \/ doneOnSend sel (n + k)%nat = true).
Proof.
  induction received as [|idx rest IH]; intros n; cbn [worker].
  - exists 0%nat. split; [lia|]. split; [reflexivity|].
    split; [intros j Hj; lia | cbn [length]; intros Hk; lia].
  - destruct (doneOnTake sel n) eqn:Ht.
    + exists 0%nat. split; [lia|]. split; [reflexivity|]. split; [intros j Hj; lia|].
      intros _. left. now rewrite Nat.add_0_r.
    + destruct (doneOnSend sel n) eqn:Hs.
      * exists 0%nat. split; [lia|]. split; [reflexivity|]. split; [intros j Hj; lia|].
        intros _. right. now rewrite Nat.add_0_r.
      * destruct (IH (S n)) as (k & Hk & Hw & Hb & Hat).
        exists (S k). split; [cbn [length]; lia|]. split; [cbn [firstn map]; now rewrite Hw|].
        split.
        -- intros [|j] Hj; [rewrite Nat.add_0_r; now split|].
           replace (n + S j)%nat with (S n + j)%nat by lia. apply Hb. lia.
        -- intros Hlt. replace (n + S k)%nat with (S n + k)%nat by lia.
           apply Hat. cbn [length] in Hlt. lia.
Qed.

(** X17: a worker sends on [results] the outcomes of the first k indices it
    received, in the order received and one for each, for some k: it never
    sends an outcome for an index it did not take, nor two for one index.
    It stops before the end of what it could receive only at an iteration
    where one of its two selects takes the deadline case; the outcome
    fetched at such an iteration, if any, is dropped. *)
Theorem worker_emits_prefix (fetch : Z -> PolygonResult) (sel : workerSelects)
        (received : list Z) :
  exists k,
    (k <= length received)%nat /\
    worker fetch sel 0 received = map fetch (firstn k received) /\
    (forall j, (j < k)%nat -> doneOnTake sel j = false /\ doneOnSend sel j = false) /\
    ((k < length received)%nat -> doneOnTake sel k = true \/ doneOnSend sel k = true) /\
    (length (worker fetch sel 0 received) <= length received)%nat.
Proof.
  destruct (worker_spec fetch sel received 0) as (k & Hk & Hw & Hb & Hat).
  exists k. split; [exact Hk|]. split; [exact Hw|]. split; [exact Hb|].
  split; [exact Hat|].
  rewrite Hw, length_map, length_firstn. lia.
Qed.




